(** * Storefront: session cart, checkout, order lookup and the auth gate

    A shallow embedding of [app/models.py] and [app/views.py].

    - The relational store is explicit state: one table per model.
    - A view is a function from the request data and the current state to a
      response and the next state.  No view opens a transaction, and the
      database runs in the framework's default autocommit mode, so a write
      stays in the state when a later statement of the same view raises.
    - A [DecimalField(max_digits=10, decimal_places=2)] holds a number with
      two decimal places; it is held as an integer count of hundredths.  The
      views compute with it as a [decimal.Decimal] under the default context,
      which rounds every result to 28 significant digits.
    - Python [int] is [Z].  The database is SQLite, the framework's default:
      an integer column stores a signed 64-bit value.
    - Text is [string], the bytes of its UTF-8 encoding.  What [str.lower],
      [str.strip] and the NFKC normalisation of user names compute on
      Unicode text is given by an interface, [Text]. *)

From stdpp Require Import gmap strings list sorting.
From Stdlib Require Import ZArith Lia Ascii.

(** ** Decimal arithmetic

    The default context of [decimal]: 28 significant digits, rounding half
    to even.  All amounts are whole numbers of hundredths, and the rounding
    of such a number is one again.  The exponent limits of the context are
    far beyond any amount a request can produce. *)
Definition prec : Z := 28.

(** The least [k'] from [k] on with [a < 10 ^ (prec + k')]: the number of
    digits a non-negative [a] has beyond [prec]. *)
Fixpoint digits_over (fuel : nat) (a k : Z) : Z :=
  match fuel with
  | O => k
  | S fuel' =>
      if (a <? 10 ^ (prec + k))%Z then k else digits_over fuel' a (k + 1)
  end.

(** The multiple of [m] nearest to a non-negative [a], a tie going to the
    even multiple. *)
Definition round_half_even (a m : Z) : Z :=
  let q := (a / m)%Z in
  let r := (a mod m)%Z in
  if (2 * r <? m)%Z then (q * m)%Z
  else if (m <? 2 * r)%Z then ((q + 1) * m)%Z
  else if Z.even q then (q * m)%Z
  else ((q + 1) * m)%Z.

(** The context applied to an exact result. *)
Definition dec_round (x : Z) : Z :=
  let a := Z.abs x in
  let k := digits_over (S (Z.to_nat (Z.log2 a))) a 0 in
  (Z.sgn x * round_half_even a (10 ^ k))%Z.

(** [Decimal * int] and [Decimal + Decimal] *)
Definition dec_mul (x : Z) (n : Z) : Z := dec_round (x * n).

Definition dec_add (x y : Z) : Z := dec_round (x + y).

(** The largest integer an integer column stores. *)
Definition int_max : Z := 2 ^ 63 - 1.

(** ** models.py *)

Module Product.
Record t := mk {
  category : nat;
  name : string;
  slug : string;
  description : string;
  price : Z;
  stock : Z;
  is_active : bool
}.
End Product.

Module Order.
Record t := mk {
  user : option nat;
  full_name : string;
  email : string;
  phone : string;
  address : string;
  city : string;
  state : string;
  pincode : string;
  paid : bool
}.
End Order.

Module OrderItem.
Record t := mk {
  order : nat;
  product : nat;
  qty : Z;
  price : Z
}.

(** [OrderItem.subtotal]: [self.qty * self.price] *)
Definition subtotal (item : t) : Z := dec_mul (price item) (qty item).
End OrderItem.

(** The tables.  [products] maps a primary key to its row.  [orders] holds the
    rows in insertion order: the application never deletes an order, and keys
    are handed out by auto-increment from 1, so the row at position [i] has
    primary key [S i]. *)
Record DB := mkDB {
  products : gmap nat Product.t;
  orders : list Order.t;
  order_items : list OrderItem.t
}.

(** ** The session cart

    The cart is a Python [dict] kept in the session under the key ['cart'].
    Its keys are [str(product_id)] for the integer [product_id] of the URL
    ([<int:product_id>]), and a key is turned back into that integer when it
    is used as [pk=pid]; a key is held here as the integer itself.  A [dict]
    iterates in insertion order, so it is a list of bindings. *)
Abbreviation dict := (list (nat * Z)).

(** [d.get(k)] *)
Fixpoint dict_get (k : nat) (d : dict) : option Z :=
  match d with
  | [] => None
  | (k', v) :: d' => if decide (k = k') then Some v else dict_get k d'
  end.

(** [d[k] = v]: an existing key keeps its position, a new one goes last. *)
Fixpoint dict_set (k : nat) (v : Z) (d : dict) : dict :=
  match d with
  | [] => [(k, v)]
  | (k', v') :: d' =>
      if decide (k = k') then (k, v) :: d' else (k', v') :: dict_set k v d'
  end.

(** [d.pop(k, None)] *)
Definition dict_pop (k : nat) (d : dict) : dict :=
  filter (λ kv, kv.1 ≠ k) d.

(** [sum(d.values())] *)
Definition dict_sum_values (d : dict) : Z :=
  foldr (λ kv acc, (kv.2 + acc)%Z) 0%Z d.

(** Keys of a [dict] are pairwise distinct. *)
Definition dict_ok (d : dict) : Prop := NoDup d.*1.

(** The state a view runs against: the store, and the ['cart'] entry of the
    visitor's session ([None] while the key is unset). *)
Record World := mkWorld {
  db : DB;
  session_cart : option dict
}.

(** [_get_cart] *)
Definition _get_cart (w : World) : dict := default [] (session_cart w).

(** [_save_cart] *)
Definition _save_cart (cart : dict) (w : World) : World :=
  {| db := db w; session_cart := Some cart |}.

(** ** Responses *)

Inductive Method := GET | POST.

(** Where a view redirects to: the URL names of [urls.py], and
    [settings.LOGIN_URL], where [@login_required] sends an anonymous
    visitor. *)
Module Url.
Inductive t :=
  | product_list
  | cart
  | login
  | order_success (order_id : nat)
  | LOGIN_URL.
End Url.

Inductive Level := level_error | level_success.

Module CartLine.
Record t := mk {
  product : Product.t;
  qty : Z;
  subtotal : Z
}.
End CartLine.

Inductive Page :=
  | cart_html (items : list CartLine.t) (total : Z) (cart_count : Z)
  | checkout_html (user : nat) (cart_count : Z)
  | order_success_html (order : Order.t)
  | auth_login_html (error : option string)
  | auth_register_html (error : option string).

(** Exceptions that leave a view. *)
Inductive Exn :=
  | Http404 (model : string)
  | IntegrityError
  | ValueError
  | AttributeError
  | OverflowError
  | MultipleObjectsReturned.

Inductive Response :=
  | Redirect (to : Url.t) (flash : list (Level * string))
  | Render (page : Page)
  | Raise (e : Exn).

(** ** Cart views *)

(** The [qty] field of the update form as [int(request.POST.get('qty', '1'))]
    sees it: missing, a numeral, or text that [int] rejects. *)
Inductive QtyField :=
  | qty_missing
  | qty_int (n : Z)
  | qty_malformed.

Definition cart_update (method : Method) (product_id : nat) (qty : QtyField)
    (w : World) : Response * World :=
  match method with
  | POST =>
      match match qty with
            | qty_missing => Some 1%Z
            | qty_int n => Some n
            | qty_malformed => None
            end
      with
      | None => (Raise ValueError, w)
      | Some qty =>
          let cart := _get_cart w in
          let cart :=
            if decide (qty ≤ 0)%Z then dict_pop product_id cart
            else dict_set product_id qty cart in
          (Redirect Url.cart [], _save_cart cart w)
      end
  | GET => (Redirect Url.cart [], w)
  end.

(** [cart_remove] *)
Definition cart_remove (product_id : nat) (w : World) : Response * World :=
  let cart := _get_cart w in
  let cart := dict_pop product_id cart in
  (Redirect Url.cart [], _save_cart cart w).

(** ** Store operations

    A store operation either returns a value or raises; in both cases it
    hands back the store as it left it. *)
Definition M (A : Type) : Type := DB → (Exn + A) * DB.

#[export] Instance M_ret : MRet M := λ A a d, (inr a, d).

#[export] Instance M_bind : MBind M := λ A B f m d,
  match m d with
  | (inl e, d') => (inl e, d')
  | (inr a, d') => f a d'
  end.

(** [for x in xs: body(x)] *)
Fixpoint for_each {A : Type} (body : A → M unit) (xs : list A) : M unit :=
  match xs with
  | [] => mret tt
  | x :: xs' => body x ≫= λ _, for_each body xs'
  end.

(** [get_object_or_404(Product, pk=pk, is_active=True)] *)
Definition get_Product_or_404 (pk : nat) : M Product.t := λ d,
  match products d !! pk with
  | Some p =>
      if Product.is_active p then (inr p, d)
      else (inl (Http404 "Product"), d)
  | None => (inl (Http404 "Product"), d)
  end.

(** [product.save()] for the row with primary key [pk] *)
Definition Product_save (pk : nat) (p : Product.t) : M unit := λ d,
  (inr tt,
   {| products := <[pk := p]> (products d);
      orders := orders d;
      order_items := order_items d |}).

(** [OrderItem.objects.create(...)].  A [qty] outside the signed 64-bit
    range cannot be handed to the database: the insert raises
    [OverflowError].  [qty] is a [PositiveIntegerField]: the column carries
    the check [qty >= 0], and an insert that breaks it raises
    [IntegrityError].  Neither writes. *)
Definition OrderItem_create (item : OrderItem.t) : M unit := λ d,
  if decide (OrderItem.qty item < - int_max - 1 ∨
             int_max < OrderItem.qty item)%Z
  then (inl OverflowError, d)
  else if decide (0 ≤ OrderItem.qty item)%Z then
    (inr tt,
     {| products := products d;
        orders := orders d;
        order_items := order_items d ++ [item] |})
  else (inl IntegrityError, d).

(** The contact fields of the checkout form, each as
    [request.POST.get(...)] returns it: [None] when the field is not in the
    submission. *)
Module CheckoutForm.
Record t := mk {
  full_name : option string;
  email : option string;
  phone : option string;
  address : option string;
  city : option string;
  state : option string;
  pincode : option string
}.
End CheckoutForm.

(** The row that [checkout] asks [Order.objects.create] to insert.  The seven
    text columns are [NOT NULL]: there is a row to insert only when none of
    the values is [None]; any text, the empty one included, is stored as it
    is.  [user] is the primary key of [request.user]. *)
Definition Order_row (user : nat) (f : CheckoutForm.t) : option Order.t :=
  match CheckoutForm.full_name f, CheckoutForm.email f, CheckoutForm.phone f,
        CheckoutForm.address f, CheckoutForm.city f, CheckoutForm.state f,
        CheckoutForm.pincode f with
  | Some full_name, Some email, Some phone, Some address, Some city,
    Some state, Some pincode =>
      Some {| Order.user := Some user;
              Order.full_name := full_name;
              Order.email := email;
              Order.phone := phone;
              Order.address := address;
              Order.city := city;
              Order.state := state;
              Order.pincode := pincode;
              Order.paid := true |}
  | _, _, _, _, _, _, _ => None
  end.

(** [Order.objects.create(user=request.user, ..., paid=True)], returning the
    new primary key; a [None] for a [NOT NULL] column makes the insert raise
    without writing. *)
Definition Order_create (user : nat) (f : CheckoutForm.t) : M nat := λ d,
  match Order_row user f with
  | Some row =>
      (inr (S (length (orders d))),
       {| products := products d;
          orders := orders d ++ [row];
          order_items := order_items d |})
  | None => (inl IntegrityError, d)
  end.

(** The order with primary key [pk]. *)
Definition Order_by_pk (pk : nat) (d : DB) : option Order.t :=
  match pk with
  | O => None
  | S i => orders d !! i
  end.

(** [get_object_or_404(Order, pk=order_id, user=user)] *)
Definition get_Order_or_404 (order_id : nat) (user : nat) : M Order.t := λ d,
  match Order_by_pk order_id d with
  | Some o =>
      if decide (Order.user o = Some user) then (inr o, d)
      else (inl (Http404 "Order"), d)
  | None => (inl (Http404 "Order"), d)
  end.

(** [order.items.all()] and [Order.total_amount] *)
Definition Order_items (order_id : nat) (d : DB) : list OrderItem.t :=
  filter (λ item, OrderItem.order item = order_id) (order_items d).

Definition sum_list_Z (l : list Z) : Z := foldr Z.add 0%Z l.

(** [sum(item.subtotal for item in self.items.all())]: from 0, adding the
    subtotals one after the other. *)
Definition Order_total_amount (order_id : nat) (d : DB) : Z :=
  foldl dec_add 0%Z (OrderItem.subtotal <$> Order_items order_id d).

(** ** Cart views that read the catalog *)

(** The body of the loop of [cart_view], threading [items] and [total]. *)
Fixpoint cart_view_loop (entries : dict) (items : list CartLine.t) (total : Z)
    : M (list CartLine.t * Z) :=
  match entries with
  | [] => mret (items, total)
  | (pid, qty) :: entries' =>
      get_Product_or_404 pid ≫= λ product,
      let subtotal := dec_mul (Product.price product) qty in
      let total := dec_add total subtotal in
      let items := items ++ [ {| CartLine.product := product;
                                 CartLine.qty := qty;
                                 CartLine.subtotal := subtotal |} ] in
      cart_view_loop entries' items total
  end.

Definition cart_view (w : World) : Response * World :=
  let cart := _get_cart w in
  match cart_view_loop cart [] 0%Z (db w) with
  | (inl e, d) => (Raise e, {| db := d; session_cart := session_cart w |})
  | (inr (items, total), d) =>
      (Render (cart_html items total (dict_sum_values cart)),
       {| db := d; session_cart := session_cart w |})
  end.

Definition cart_add (product_id : nat) (w : World) : Response * World :=
  match get_Product_or_404 product_id (db w) with
  | (inl e, d) => (Raise e, {| db := d; session_cart := session_cart w |})
  | (inr product, d) =>
      let w := {| db := d; session_cart := session_cart w |} in
      let cart := _get_cart w in
      let cart :=
        dict_set product_id (default 0%Z (dict_get product_id cart) + 1)%Z cart in
      (Redirect Url.cart
         [(level_success, "Added " +:+ Product.name product +:+ " to cart.")],
       _save_cart cart w)
  end.

(** ** Checkout *)

Definition set_stock (p : Product.t) (stock : Z) : Product.t :=
  {| Product.category := Product.category p;
     Product.name := Product.name p;
     Product.slug := Product.slug p;
     Product.description := Product.description p;
     Product.price := Product.price p;
     Product.stock := stock;
     Product.is_active := Product.is_active p |}.

(** One turn of the loop over [cart.items()] in [checkout]. *)
Definition checkout_entry (order_id : nat) (entry : nat * Z) : M unit :=
  let '(pid, qty) := entry in
  get_Product_or_404 pid ≫= λ product,
  OrderItem_create {| OrderItem.order := order_id;
                      OrderItem.product := pid;
                      OrderItem.qty := qty;
                      OrderItem.price := Product.price product |} ≫= λ _,
  Product_save pid (set_stock product (Z.max 0 (Product.stock product - qty))).

(** The writes of a [POST] checkout, in program order. *)
Definition place_order (user : nat) (f : CheckoutForm.t) (cart : dict) : M nat :=
  Order_create user f ≫= λ order_id,
  for_each (checkout_entry order_id) cart ≫= λ _,
  mret order_id.

(** [checkout], under [@login_required]: [user] is the primary key of
    [request.user], [None] for an anonymous visitor. *)
Definition checkout (method : Method) (user : option nat) (f : CheckoutForm.t)
    (w : World) : Response * World :=
  match user with
  | None => (Redirect Url.LOGIN_URL [], w)
  | Some user =>
      let cart := _get_cart w in
      match cart with
      | [] =>
          (Redirect Url.product_list
             [(level_error, "Your cart is empty.")], w)
      | _ :: _ =>
          match method with
          | POST =>
              match place_order user f cart (db w) with
              | (inl e, d) =>
                  (Raise e, {| db := d; session_cart := session_cart w |})
              | (inr order_id, d) =>
                  (Redirect (Url.order_success order_id) [],
                   _save_cart [] {| db := d; session_cart := session_cart w |})
              end
          | GET => (Render (checkout_html user (dict_sum_values cart)), w)
          end
      end
  end.

(** [order_success], under [@login_required]. *)
Definition order_success (user : option nat) (order_id : nat) (w : World)
    : Response * World :=
  match user with
  | None => (Redirect Url.LOGIN_URL [], w)
  | Some user =>
      match get_Order_or_404 order_id user (db w) with
      | (inl e, d) => (Raise e, {| db := d; session_cart := session_cart w |})
      | (inr order, d) =>
          (Render (order_success_html order),
           {| db := d; session_cart := session_cart w |})
      end
  end.

(** ** Text

    The methods of [str] that [register_view] calls work on Unicode code
    points, and the user manager normalises a user name with
    [unicodedata.normalize("NFKC", _)].  The views use them through this
    interface, which carries the laws of [str] that the properties rely on:
    stripping twice is stripping once, stripping and lower-casing commute,
    and what follows an "@" in lower-cased text is lower-cased. *)
Class Text := {
  str_lower : string → string;
  str_strip : string → string;
  normalize_username : string → string;
  str_strip_strip (s : string) : str_strip (str_strip s) = str_strip s;
  str_lower_strip (s : string) :
    str_lower (str_strip s) = str_strip (str_lower s);
  str_lower_domain (s a b : string) :
    str_lower s = a +:+ "@" +:+ b → str_lower b = b
}.

(** [s.rsplit("@", 1)] when it has two parts: the text before the last "@"
    and the text after it.  No byte of a multi-byte character is an "@". *)
Fixpoint rsplit_at (s : string) : option (string * string) :=
  match s with
  | EmptyString => None
  | String c s' =>
      match rsplit_at s' with
      | Some (name, domain) => Some (String c name, domain)
      | None => if decide (c = "@"%char) then Some (EmptyString, s') else None
      end
  end.

(** [BaseUserManager.normalize_email]: the domain part of the stripped
    address in lower case; an address without "@" is left as it is. *)
Definition normalize_email {text : Text} (email : string) : string :=
  match rsplit_at (str_strip email) with
  | Some (email_name, domain_part) =>
      email_name +:+ "@" +:+ str_lower domain_part
  | None => email
  end.

(** ** Text of ASCII characters

    What [str.lower], [str.strip] and NFKC compute on text of ASCII
    characters; the case folding is also the one of SQLite's [LIKE]. *)

(** [c.isspace()] for an ASCII character *)
Definition isspace (c : ascii) : bool :=
  let n := nat_of_ascii c in
  ((9 <=? n) && (n <=? 13)) || ((28 <=? n) && (n <=? 32)).

(** The lower-case letter of an ASCII capital. *)
Definition lower_char (c : ascii) : ascii :=
  let n := nat_of_ascii c in
  if (65 <=? n) && (n <=? 90) then ascii_of_nat (n + 32) else c.

(** The text with its ASCII capitals in lower case. *)
Fixpoint lower (s : string) : string :=
  match s with
  | EmptyString => EmptyString
  | String c s' => String (lower_char c) (lower s')
  end.

(** The text without its leading ASCII white space. *)
Fixpoint lstrip (s : string) : string :=
  match s with
  | EmptyString => EmptyString
  | String c s' => if isspace c then lstrip s' else s
  end.

(** The text without its trailing ASCII white space. *)
Fixpoint rstrip (s : string) : string :=
  match s with
  | EmptyString => EmptyString
  | String c s' =>
      match rstrip s' with
      | EmptyString => if isspace c then EmptyString else String c EmptyString
      | r => String c r
      end
  end.

Definition strip (s : string) : string := lstrip (rstrip s).

(** NFKC on text of ASCII characters, which it leaves as they are, and of
    the ligature U+FB01 (the bytes 239, 172, 129), which it replaces by
    "fi". *)
Fixpoint nfkc_fi (s : string) : string :=
  match s with
  | EmptyString => EmptyString
  | String c s' =>
      match c, s' with
      | "239"%char, String "172"%char (String "129"%char s'') =>
          String "f" (String "i" (nfkc_fi s''))
      | _, _ => String c (nfkc_fi s')
      end
  end.

(** ** The auth gate *)

(** A row of [django.contrib.auth.models.User].  The table is keyed by
    [username], its unique column; [email] carries no uniqueness
    constraint. *)
Module User.
Record t := mk {
  email : string;
  password : string;
  is_active : bool
}.
End User.

Inductive GetResult (A : Type) :=
  | DoesNotExist
  | Found (a : A)
  | Multiple.
Arguments DoesNotExist {A}.
Arguments Found {A} a.
Arguments Multiple {A}.

(** [User.objects.filter(email=email)] *)
Definition User_filter_email (email : string) (users : gmap string User.t)
    : list (string * User.t) :=
  filter (λ u, User.email u.2 = email) (map_to_list users).

(** [User.objects.get(email=email)]; no row has a null email, so [None]
    matches nothing. *)
Definition User_get_email (email : option string) (users : gmap string User.t)
    : GetResult (string * User.t) :=
  match email with
  | None => DoesNotExist
  | Some email =>
      match User_filter_email email users with
      | [] => DoesNotExist
      | [u] => Found u
      | _ :: _ :: _ => Multiple
      end
  end.

Module RegisterForm.
Record t := mk {
  username : option string;
  email : option string;
  password : option string;
  confirm_password : option string
}.
End RegisterForm.

Section AuthGate.

Context {text : Text}.

(** The password hasher of the framework: [make_password] encodes a raw
    password ([None] gives an unusable one), [check_password] tests a raw
    password against an encoded one. *)
Variable make_password : option string → string.
Variable check_password : string → string → bool.

(** [authenticate(request, username=..., password=...)] with the model
    backend; the result is the username of the authenticated row. *)
Definition authenticate (username password : option string)
    (users : gmap string User.t) : option string :=
  match username, password with
  | Some username, Some password =>
      match users !! username with
      | Some u =>
          if check_password password (User.password u) && User.is_active u
          then Some username else None
      | None => None
      end
  | _, _ => None
  end.

(** [login_view].  [request_user] is the logged-in user of the session, named
    by username, and the second component of the result is that user after
    the request. *)
Definition login_view (method : Method) (request_user : option string)
    (username password : option string) (users : gmap string User.t)
    : Response * option string :=
  match request_user with
  | Some _ => (Redirect Url.product_list [], request_user)
  | None =>
      match method with
      | POST =>
          let email_or_username := username in
          let user : Exn + option string :=
            match authenticate email_or_username password users with
            | Some user => inr (Some user)
            | None =>
                match User_get_email email_or_username users with
                | Found u => inr (authenticate (Some u.1) password users)
                | DoesNotExist => inr None
                | Multiple => inl MultipleObjectsReturned
                end
            end in
          match user with
          | inl e => (Raise e, None)
          | inr (Some user) => (Redirect Url.product_list [], Some user)
          | inr None =>
              (Render (auth_login_html (Some "Invalid credentials")), None)
          end
      | GET => (Render (auth_login_html None), None)
      end
  end.

(** [User.objects.create_user(username=..., email=..., password=...)]: the
    empty username is refused; the row is saved with the email and the
    username normalised, and [username] is unique. *)
Definition create_user (username email : string) (password : option string)
    (users : gmap string User.t) : Exn + gmap string User.t :=
  if decide (username = "") then inl ValueError
  else
    let email := normalize_email email in
    let username := normalize_username username in
    match users !! username with
    | Some _ => inl IntegrityError
    | None =>
        inr (<[username := {| User.email := email;
                              User.password := make_password password;
                              User.is_active := true |}]> users)
    end.

Definition register_view (method : Method) (request_user : option string)
    (f : RegisterForm.t) (users : gmap string User.t)
    : Response * gmap string User.t :=
  match request_user with
  | Some _ => (Redirect Url.product_list [], users)
  | None =>
      match method with
      | POST =>
          match RegisterForm.username f, RegisterForm.email f with
          | Some username, Some email =>
              let username := str_strip username in
              let email := str_lower (str_strip email) in
              let password := RegisterForm.password f in
              let cp := RegisterForm.confirm_password f in
              if decide (password ≠ cp) then
                (Render (auth_register_html (Some "Passwords do not match")),
                 users)
              else if decide (is_Some (users !! username)) then
                (Render (auth_register_html (Some "Username already taken")),
                 users)
              else if decide (User_filter_email email users ≠ []) then
                (Render (auth_register_html (Some "Email already registered")),
                 users)
              else
                match create_user username email password users with
                | inl e => (Raise e, users)
                | inr users' =>
                    (Redirect Url.login
                       [(level_success,
                         "Registration successful. Please log in.")],
                     users')
                end
          | _, _ => (Raise AttributeError, users)
          end
      | GET => (Render (auth_register_html None), users)
      end
  end.

End AuthGate.

(** ** Vocabulary of the properties *)

(** Quantities of a cart are at least 1. *)
Definition qty_ok (d : dict) : Prop := Forall (λ kv, (1 ≤ kv.2)%Z) d.

(** The carts the cart views build. *)
Definition cart_ok (d : dict) : Prop := dict_ok d ∧ qty_ok d.

(** The product a key resolves to: the row with that primary key, when it
    is active. *)
Definition active (ps : gmap nat Product.t) (pk : nat) : option Product.t :=
  match ps !! pk with
  | Some p => if Product.is_active p then Some p else None
  | None => None
  end.

(** Every entry of the cart resolves. *)
Definition resolvable (ps : gmap nat Product.t) (d : dict) : Prop :=
  Forall (λ kv, is_Some (active ps kv.1)) d.

Definition price_at (ps : gmap nat Product.t) (pk : nat) : Z :=
  from_option Product.price 0%Z (ps !! pk).

(** The sum over the entries of quantity times current price. *)
Definition cart_amount (ps : gmap nat Product.t) (d : dict) : Z :=
  sum_list_Z ((λ kv, kv.2 * price_at ps kv.1)%Z <$> d).

(** The subtotals [cart_view] computes, one per entry. *)
Definition cart_subtotals (ps : gmap nat Product.t) (d : dict) : list Z :=
  (λ kv, dec_mul (price_at ps kv.1) kv.2) <$> d.

(** Every subtotal of the cart and every running total over its entries
    has at most [prec] digits, so that no result is rounded. *)
Definition exact_amounts (ps : gmap nat Product.t) (d : dict) : Prop :=
  Forall (λ kv, (Z.abs (kv.2 * price_at ps kv.1) < 10 ^ prec)%Z) d ∧
  ∀ n, (Z.abs (cart_amount ps (take n d)) < 10 ^ prec)%Z.

(** Quantities that the integer column of the order items stores. *)
Definition qty_fits (d : dict) : Prop := Forall (λ kv, (kv.2 ≤ int_max)%Z) d.

(** Entries whose order item the database takes. *)
Definition insertable (d : dict) : Prop :=
  Forall (λ kv, (0 ≤ kv.2 ≤ int_max)%Z) d.

(** What a line of the rendered cart says about the entry it comes from. *)
Definition line_of (ps : gmap nat Product.t) (kv : nat * Z)
    (line : CartLine.t) : Prop :=
  active ps kv.1 = Some (CartLine.product line) ∧
  CartLine.qty line = kv.2 ∧
  CartLine.subtotal line = (kv.2 * price_at ps kv.1)%Z.

(** Stock after a sale of [qty], floored at 0. *)
Definition decrement (qty : Z) (p : Product.t) : Product.t :=
  set_stock p (Z.max 0 (Product.stock p - qty)).

(** The product table after each entry, in turn, has been sold. *)
Fixpoint sold (entries : dict) (ps : gmap nat Product.t)
    : gmap nat Product.t :=
  match entries with
  | [] => ps
  | (pid, qty) :: entries' => sold entries' (alter (decrement qty) pid ps)
  end.

(** The line items of an order placed for [entries] at the prices of [ps]. *)
Definition order_lines (order_id : nat) (ps : gmap nat Product.t)
    (entries : dict) : list OrderItem.t :=
  (λ kv, {| OrderItem.order := order_id;
            OrderItem.product := kv.1;
            OrderItem.qty := kv.2;
            OrderItem.price := price_at ps kv.1 |}) <$> entries.

(** The store after an order for [entries] has been written in full. *)
Definition ordered (row : Order.t) (entries : dict) (d : DB) : DB :=
  {| products := sold entries (products d);
     orders := orders d ++ [row];
     order_items :=
       order_items d ++ order_lines (S (length (orders d))) (products d) entries |}.

(** A run of later saves of product rows, each with whatever new content. *)
Definition Product_saves (saves : list (nat * Product.t)) : M unit :=
  for_each (λ s, Product_save s.1 s.2) saves.

(** At most one account per email address. *)
Definition emails_unique (users : gmap string User.t) : Prop :=
  ∀ email, length (User_filter_email email users) ≤ 1.

(** ** More of the views *)

(** A request to one of the three cart views that write the cart. *)
Inductive CartRequest :=
  | req_add (product_id : nat)
  | req_update (method : Method) (product_id : nat) (qty : QtyField)
  | req_remove (product_id : nat).

Definition cart_request (r : CartRequest) (w : World) : Response * World :=
  match r with
  | req_add product_id => cart_add product_id w
  | req_update method product_id qty => cart_update method product_id qty w
  | req_remove product_id => cart_remove product_id w
  end.

(** The state after a run of cart requests, one after the other. *)
Definition cart_requests (rs : list CartRequest) (w : World) : World :=
  foldl (λ w r, (cart_request r w).2) w rs.

(** [n] requests to [cart_add] for the same product. *)
Definition cart_add_times (n : nat) (product_id : nat) (w : World) : World :=
  Nat.iter n (λ w, (cart_add product_id w).2) w.

(** What the schema enforces on the order items: the two foreign keys point
    at rows that exist, and [qty] passes its check. *)
Definition item_ok (d : DB) (item : OrderItem.t) : Prop :=
  is_Some (Order_by_pk (OrderItem.order item) d) ∧
  is_Some (products d !! OrderItem.product item) ∧
  (0 ≤ OrderItem.qty item)%Z.

Definition items_ok (d : DB) : Prop := Forall (item_ok d) (order_items d).

(** [stock] is a [PositiveIntegerField]: no row has a negative stock. *)
Definition stock_ok (ps : gmap nat Product.t) : Prop :=
  ∀ pk p, ps !! pk = Some p → (0 ≤ Product.stock p)%Z.

(** ** The catalog views *)

Module Category.
Record t := mk {
  name : string;
  slug : string
}.
End Category.

(** [hay.startswith(needle)] *)
Fixpoint startswith (needle hay : string) : bool :=
  match needle, hay with
  | EmptyString, _ => true
  | String _ _, EmptyString => false
  | String a needle', String b hay' =>
      if decide (a = b) then startswith needle' hay' else false
  end.

(** [needle in hay] *)
Fixpoint contains (needle hay : string) : bool :=
  startswith needle hay ||
  match hay with
  | EmptyString => false
  | String _ hay' => contains needle hay'
  end.

(** The [__icontains] lookup, which SQLite runs as a [LIKE]: a substring
    test that ignores the case of the ASCII letters. *)
Definition icontains (q s : string) : bool := contains (lower q) (lower s).

(** [Category.objects.get(slug=slug)] *)
Definition Category_get_slug (slug : string) (categories : gmap nat Category.t)
    : GetResult (nat * Category.t) :=
  match filter (λ c, Category.slug c.2 = slug) (map_to_list categories) with
  | [] => DoesNotExist
  | [c] => Found c
  | _ :: _ :: _ => Multiple
  end.

(** The orderings of [order_by]; rows that compare equal come in the order
    the database picks. *)
Definition by_name (a b : nat * Category.t) : Prop :=
  String.leb (Category.name a.2) (Category.name b.2) = true.

Definition by_price (a b : nat * Product.t) : Prop :=
  (Product.price a.2 ≤ Product.price b.2)%Z.

Definition by_price_desc (a b : nat * Product.t) : Prop :=
  (Product.price b.2 ≤ Product.price a.2)%Z.

Definition by_newest (created_at : nat → Z) (a b : nat * Product.t) : Prop :=
  (created_at b.1 ≤ created_at a.1)%Z.

#[export] Instance by_name_dec : RelDecision by_name :=
  λ a b, decide (String.leb (Category.name a.2) (Category.name b.2) = true).

#[export] Instance by_price_dec : RelDecision by_price :=
  λ a b, decide (Product.price a.2 ≤ Product.price b.2)%Z.

#[export] Instance by_price_desc_dec : RelDecision by_price_desc :=
  λ a b, decide (Product.price b.2 ≤ Product.price a.2)%Z.

#[export] Instance by_newest_dec (created_at : nat → Z)
    : RelDecision (by_newest created_at) :=
  λ a b, decide (created_at b.1 ≤ created_at a.1)%Z.

(** The search filter of [product_list] on one row. *)
Definition matches (q : string) (p : Product.t) : Prop :=
  icontains q (Product.name p) = true ∨
  icontains q (Product.description p) = true.

#[export] Instance matches_dec (q : string) (p : Product.t)
    : Decision (matches q p) :=
  decide (icontains q (Product.name p) = true ∨
          icontains q (Product.description p) = true).

(** The context [product_list] renders its template with. *)
Module ProductList.
Record t := mk {
  categories : list (nat * Category.t);
  products : list (nat * Product.t);
  current_category : option (nat * Category.t);
  q : string;
  sort : string;
  cart_count : Z
}.
End ProductList.

(** [product_list].  [categories] is the category table.  [created_at] gives
    the [created_at] column of a product row by primary key.  [slug] is the
    URL argument, [q] and [sort] are the query parameters, each [None] when
    absent.  A queryset without [order_by] comes in the order the database
    picks; here that is the order of [map_to_list]. *)
Definition product_list (categories : gmap nat Category.t)
    (created_at : nat → Z) (slug q sort : option string) (w : World)
    : Exn + ProductList.t :=
  let all_categories := merge_sort by_name (map_to_list categories) in
  let products :=
    filter (λ r, Product.is_active r.2 = true) (map_to_list (products (db w))) in
  let narrowed : Exn + (option (nat * Category.t) * list (nat * Product.t)) :=
    match slug with
    | None | Some EmptyString => inr (None, products)
    | Some slug =>
        match Category_get_slug slug categories with
        | DoesNotExist => inl (Http404 "Category")
        | Multiple => inl MultipleObjectsReturned
        | Found c =>
            inr (Some c, filter (λ r, Product.category r.2 = c.1) products)
        end
    end in
  match narrowed with
  | inl e => inl e
  | inr (current_category, products) =>
      let products :=
        match q with
        | None | Some EmptyString => products
        | Some q => filter (λ r, matches q r.2) products
        end in
      let products :=
        if decide (sort = Some "price_asc") then merge_sort by_price products
        else if decide (sort = Some "price_desc")
             then merge_sort by_price_desc products
        else if decide (sort = Some "new")
             then merge_sort (by_newest created_at) products
        else products in
      inr {| ProductList.categories := all_categories;
             ProductList.products := products;
             ProductList.current_category := current_category;
             ProductList.q := default "" q;
             ProductList.sort := default "" sort;
             ProductList.cart_count := dict_sum_values (_get_cart w) |}
  end.

(** [product_detail]: the product and the cart count of the context. *)
Definition product_detail (slug : string) (w : World)
    : Exn + (Product.t * Z) :=
  match filter (λ r, Product.slug r.2 = slug ∧ Product.is_active r.2 = true)
          (map_to_list (products (db w))) with
  | [] => inl (Http404 "Product")
  | [r] => inr (r.2, dict_sum_values (_get_cart w))
  | _ :: _ :: _ => inl MultipleObjectsReturned
  end.

(** No two products share a slug: the column is unique. *)
Definition slugs_unique (ps : gmap nat Product.t) : Prop :=
  ∀ pk1 pk2 p1 p2,
    ps !! pk1 = Some p1 → ps !! pk2 = Some p2 →
    Product.slug p1 = Product.slug p2 → pk1 = pk2.

(** * Properties *)

(** ** The cart as a dict *)

Lemma dict_get_None (k : nat) (d : dict) : dict_get k d = None ↔ k ∉ d.*1.
Proof.
  induction d as [|[k' v] d IH]; simpl.
  - split; [intros _; apply not_elem_of_nil | done].
  - case_decide as Hk.
    + split; [done | intros []; subst; left].
    + rewrite IH, not_elem_of_cons. tauto.
Qed.

Lemma dict_get_Some_elem (k : nat) (v : Z) (d : dict) :
  dict_get k d = Some v → (k, v) ∈ d.
Proof.
  induction d as [|[k' v'] d IH]; simpl; [done|].
  case_decide; [intros [= <-]; subst; left | intros; right; auto].
Qed.

Lemma dict_get_elem (k : nat) (v : Z) (d : dict) :
  dict_ok d → (k, v) ∈ d → dict_get k d = Some v.
Proof.
  unfold dict_ok. induction d as [|[k' v'] d IH]; simpl.
  - intros _ H. by apply elem_of_nil in H.
  - rewrite NoDup_cons. intros [Hk' Hd] Hin.
    apply elem_of_cons in Hin as [[= -> ->]|Hin].
    + by rewrite decide_True.
    + rewrite decide_False; [auto|].
      intros ->. apply Hk'. apply list_elem_of_fmap. by exists (k', v).
Qed.

Lemma dict_get_pop (k : nat) (d : dict) : dict_get k (dict_pop k d) = None.
Proof.
  apply dict_get_None. unfold dict_pop.
  intros ([k' v] & -> & Hin%list_elem_of_filter)%list_elem_of_fmap.
  by destruct Hin.
Qed.

Lemma dict_get_pop_ne (k k' : nat) (d : dict) :
  k ≠ k' → dict_get k' (dict_pop k d) = dict_get k' d.
Proof.
  intros Hne. unfold dict_pop.
  induction d as [|[k0 v0] d IH]; [done|].
  rewrite filter_cons; simpl. case_decide as Hk0; simpl.
  - by rewrite IH.
  - subst k0. by rewrite decide_False, IH.
Qed.

Lemma dict_get_set (k : nat) (v : Z) (d : dict) :
  dict_get k (dict_set k v d) = Some v.
Proof.
  induction d as [|[k' v'] d IH]; simpl.
  - by rewrite decide_True.
  - case_decide as Hk; simpl.
    + by rewrite decide_True.
    + by rewrite decide_False.
Qed.

Lemma dict_get_set_ne (k k' : nat) (v : Z) (d : dict) :
  k ≠ k' → dict_get k' (dict_set k v d) = dict_get k' d.
Proof.
  intros Hne. induction d as [|[k0 v0] d IH]; simpl.
  - by rewrite decide_False.
  - case_decide as Hk; simpl.
    + subst k0. by rewrite !decide_False.
    + by rewrite IH.
Qed.

Lemma dict_set_keys (k : nat) (v : Z) (d : dict) :
  (dict_set k v d).*1 = if decide (k ∈ d.*1) then d.*1 else d.*1 ++ [k].
Proof.
  induction d as [|[k' v'] d IH]; csimpl; [done|].
  destruct (decide (k = k')) as [->|Hk]; csimpl.
  - rewrite decide_True; [done | left].
  - rewrite IH. destruct (decide (k ∈ d.*1)) as [Hin|Hin].
    + rewrite decide_True; [done | by right].
    + rewrite decide_False; [done|]. rewrite not_elem_of_cons. done.
Qed.

Lemma dict_set_elem (k : nat) (v : Z) (d : dict) (kv : nat * Z) :
  kv ∈ dict_set k v d → kv = (k, v) ∨ kv ∈ d.
Proof.
  induction d as [|[k' v'] d IH]; simpl.
  - intros ->%list_elem_of_singleton. by left.
  - case_decide; rewrite !elem_of_cons; intros [?|?]; auto.
    destruct IH; auto.
Qed.

(** The cart views keep the cart well formed. *)
Lemma dict_pop_ok (k : nat) (d : dict) : cart_ok d → cart_ok (dict_pop k d).
Proof.
  unfold cart_ok, dict_ok, qty_ok, dict_pop. intros [Hnd Hq]. split.
  - clear Hq. induction d as [|[k' v'] d IH]; [done|].
    simpl in Hnd. apply NoDup_cons in Hnd as [Hk' Hnd].
    rewrite filter_cons. case_decide; simpl; [|auto].
    apply NoDup_cons. split; [|auto].
    intros ([k0 v0] & Hk0 & Hin%list_elem_of_filter)%list_elem_of_fmap.
    simpl in Hk0. subst k0. apply Hk'.
    apply list_elem_of_fmap. exists (k', v0). by destruct Hin.
  - apply Forall_forall. intros kv [_ Hin]%list_elem_of_filter.
    by eapply Forall_forall in Hq.
Qed.

Lemma dict_set_ok (k : nat) (v : Z) (d : dict) :
  (1 ≤ v)%Z → cart_ok d → cart_ok (dict_set k v d).
Proof.
  unfold cart_ok, dict_ok, qty_ok. intros Hv [Hnd Hq]. split.
  - rewrite dict_set_keys. case_decide as Hin; [done|].
    apply NoDup_app. split_and!; [done | | apply NoDup_singleton].
    intros x Hx ->%list_elem_of_singleton. done.
  - apply Forall_forall. intros kv [->|Hin]%dict_set_elem; [done|].
    by eapply Forall_forall in Hq.
Qed.

Lemma cart_ok_nil : cart_ok [].
Proof. split; [apply NoDup_nil_2 | apply Forall_nil_2]. Qed.

Lemma cart_update_ok (method : Method) (pid : nat) (qty : QtyField) (w : World) :
  cart_ok (_get_cart w) → cart_ok (_get_cart (cart_update method pid qty w).2).
Proof.
  intros Hok. unfold cart_update.
  destruct method; [done|].
  destruct qty as [|n|]; simpl; try done.
  - apply dict_set_ok; [lia | done].
  - case_decide; [by apply dict_pop_ok | apply dict_set_ok; [lia | done]].
Qed.

Lemma cart_remove_ok (pid : nat) (w : World) :
  cart_ok (_get_cart w) → cart_ok (_get_cart (cart_remove pid w).2).
Proof. intros Hok. by apply dict_pop_ok. Qed.

Lemma cart_add_ok (pid : nat) (w : World) :
  cart_ok (_get_cart w) → cart_ok (_get_cart (cart_add pid w).2).
Proof.
  intros Hok. unfold cart_add, get_Product_or_404.
  destruct (products (db w) !! pid) as [p|]; [|by destruct w].
  destruct (Product.is_active p); [|by destruct w].
  simpl. apply dict_set_ok; [|by destruct w].
  unfold _get_cart in *; simpl.
  destruct (dict_get pid (default [] (session_cart w))) as [v|] eqn:Hv;
    simpl; [|lia].
  apply dict_get_Some_elem in Hv. destruct Hok as [_ Hq].
  eapply Forall_forall in Hq; [|done]. simpl in Hq. lia.
Qed.

(** C6. [cart_update] on a POST: a quantity [qty <= 0] removes the entry of
    the product, so no binding of it is left among the cart's items; a
    quantity [qty >= 1] stores exactly [qty], whatever was stored before; the
    other entries keep their quantities. *)
Theorem cart_update_sets_quantity (pid : nat) (qty : Z) (w : World) :
  let w' := (cart_update POST pid (qty_int qty) w).2 in
  ((qty ≤ 0)%Z →
     dict_get pid (_get_cart w') = None ∧
     ∀ q, (pid, q) ∉ _get_cart w') ∧
  ((1 ≤ qty)%Z → dict_get pid (_get_cart w') = Some qty) ∧
  (∀ pid', pid ≠ pid' →
     dict_get pid' (_get_cart w') = dict_get pid' (_get_cart w)) ∧
  db w' = db w.
Proof.
  simpl. split_and!.
  - intros Hq. rewrite decide_True by done. unfold _get_cart at 1 3; simpl.
    split; [apply dict_get_pop|].
    intros q Hin. pose proof (dict_get_pop pid (_get_cart w)) as Hnone.
    apply dict_get_None in Hnone. apply Hnone.
    apply list_elem_of_fmap. by exists (pid, q).
  - intros Hq. rewrite decide_False by lia. apply dict_get_set.
  - intros pid' Hne. case_decide; unfold _get_cart at 1; simpl.
    + by apply dict_get_pop_ne.
    + by apply dict_get_set_ne.
  - done.
Qed.

Lemma cart_update_sets_quantity_witness :
  let w := {| db := mkDB ∅ [] []; session_cart := Some [(4, 2%Z); (7, 1%Z)] |} in
  dict_get 4 (_get_cart (cart_update POST 4 (qty_int 0) w).2) = None ∧
  dict_get 4 (_get_cart (cart_update POST 4 (qty_int 5) w).2) = Some 5%Z.
Proof.
  split.
  - apply (cart_update_sets_quantity 4 0). lia.
  - apply (cart_update_sets_quantity 4 5). lia.
Defined.

(** ** Reading the cart *)

Lemma get_Product_or_404_active (pk : nat) (d : DB) :
  get_Product_or_404 pk d =
    (match active (products d) pk with
     | Some p => inr p
     | None => inl (Http404 "Product")
     end, d).
Proof.
  unfold get_Product_or_404, active.
  destruct (products d !! pk) as [p|]; [|done].
  by destruct (Product.is_active p).
Qed.

Lemma active_price_at (ps : gmap nat Product.t) (pk : nat) (p : Product.t) :
  active ps pk = Some p → price_at ps pk = Product.price p.
Proof.
  unfold active, price_at. destruct (ps !! pk) as [p'|]; [|done].
  destruct (Product.is_active p'); [|done]. by intros [= ->].
Qed.

Lemma cart_amount_cons (ps : gmap nat Product.t) (pid : nat) (qty : Z)
    (d : dict) :
  cart_amount ps ((pid, qty) :: d) =
    (qty * price_at ps pid + cart_amount ps d)%Z.
Proof. reflexivity. Qed.

Lemma dec_round_exact (x : Z) : (Z.abs x < 10 ^ prec)%Z → dec_round x = x.
Proof.
  intros Hx. unfold dec_round. cbn [digits_over].
  rewrite Z.add_0_r. destruct (Z.ltb_spec (Z.abs x) (10 ^ prec)) as [_|]; [|lia].
  unfold round_half_even. rewrite Z.pow_0_r, Z.mod_1_r, Z.div_1_r. simpl. lia.
Qed.

(** The loop of [cart_view] over entries that all resolve. *)
Lemma cart_view_loop_resolvable (entries : dict) (d : DB) :
  resolvable (products d) entries →
  ∀ items total, ∃ lines,
    cart_view_loop entries items total d =
      (inr (items ++ lines,
            foldl dec_add total (cart_subtotals (products d) entries)), d) ∧
    Forall2 (λ kv line,
               active (products d) kv.1 = Some (CartLine.product line) ∧
               CartLine.qty line = kv.2 ∧
               CartLine.subtotal line = dec_mul (price_at (products d) kv.1) kv.2)
      entries lines.
Proof.
  unfold resolvable.
  induction entries as [|[pid qty] entries IH]; intros Hres items total.
  - exists []. split; [|constructor].
    simpl. unfold mret, M_ret. by rewrite app_nil_r.
  - apply Forall_cons in Hres as [[p Hp] Hres]. simpl in Hp.
    set (line := {| CartLine.product := p; CartLine.qty := qty;
                    CartLine.subtotal := dec_mul (Product.price p) qty |}).
    destruct (IH Hres (items ++ [line])
                (dec_add total (dec_mul (Product.price p) qty)))
      as (lines & Heq & Hlines).
    exists (line :: lines). split.
    + simpl. unfold mbind, M_bind.
      rewrite get_Product_or_404_active, Hp. fold line. rewrite Heq.
      rewrite <- app_assoc. simpl. by rewrite (active_price_at _ _ _ Hp).
    + constructor; [|done]. simpl.
      by rewrite (active_price_at _ _ _ Hp).
Qed.

(** Without rounding, the running total is the exact sum. *)
Lemma cart_subtotals_exact (ps : gmap nat Product.t) (entries : dict)
    (total : Z) :
  Forall (λ kv, (Z.abs (kv.2 * price_at ps kv.1) < 10 ^ prec)%Z) entries →
  (∀ n, (Z.abs (total + cart_amount ps (take n entries)) < 10 ^ prec)%Z) →
  foldl dec_add total (cart_subtotals ps entries) =
    (total + cart_amount ps entries)%Z.
Proof.
  revert total. induction entries as [|[pid qty] entries IH];
    intros total Hsub Hrun.
  - unfold cart_amount. simpl. lia.
  - apply Forall_cons in Hsub as [Hhd Hsub]. simpl in Hhd.
    unfold cart_subtotals. csimpl. fold (cart_subtotals ps entries).
    unfold dec_mul at 1. rewrite dec_round_exact by (by rewrite Z.mul_comm).
    unfold dec_add at 2. rewrite dec_round_exact.
    2:{ specialize (Hrun 1%nat). simpl in Hrun.
        rewrite cart_amount_cons in Hrun. unfold cart_amount in Hrun.
        simpl in Hrun. lia. }
    rewrite IH; [rewrite cart_amount_cons; lia | done |].
    intros n. specialize (Hrun (S n)). simpl in Hrun.
    rewrite cart_amount_cons in Hrun.
    replace (total + price_at ps pid * qty + cart_amount ps (take n entries))%Z
      with (total + (qty * price_at ps pid + cart_amount ps (take n entries)))%Z
      by lia. done.
Qed.

(** C7, as the code has it.  When every entry of the cart resolves to an
    active product and no subtotal or running total goes beyond the 28
    digits that [Decimal] keeps, [cart_view] renders the cart, and the total
    it shows is the sum over the entries of quantity times the product's
    price in the store at that moment; each rendered line carries the
    product, the quantity and that subtotal.  Nothing is written. *)
Theorem cart_view_total (w : World) :
  resolvable (products (db w)) (_get_cart w) →
  exact_amounts (products (db w)) (_get_cart w) →
  ∃ items,
    cart_view w =
      (Render (cart_html items
                 (cart_amount (products (db w)) (_get_cart w))
                 (dict_sum_values (_get_cart w))), w) ∧
    Forall2 (line_of (products (db w))) (_get_cart w) items.
Proof.
  intros Hres [Hsub Hrun].
  destruct (cart_view_loop_resolvable _ _ Hres [] 0%Z) as (lines & Heq & Hl).
  exists lines. split.
  - unfold cart_view. rewrite Heq.
    rewrite cart_subtotals_exact by done. simpl. by destruct w.
  - clear Heq Hrun. revert Hl Hsub.
    generalize (_get_cart w). intros cart Hl.
    induction Hl as [|kv line cart lines (Hp & Hq & Hs) Hl IH]; intros Hsub;
      [constructor|].
    apply Forall_cons in Hsub as [Hhd Hsub].
    constructor; [|auto]. split_and!; [done | done |].
    rewrite Hs. unfold dec_mul. rewrite dec_round_exact by (by rewrite Z.mul_comm).
    lia.
Qed.

Lemma cart_view_total_witness :
  let pA := Product.mk 1 "A" "a" "" 1000 5 true in
  let pB := Product.mk 1 "B" "b" "" 250 9 true in
  let w := {| db := mkDB (<[1 := pA]> (<[2 := pB]> ∅)) [] [];
              session_cart := Some [(1, 2%Z); (2, 3%Z)] |} in
  ∃ items,
    cart_view w = (Render (cart_html items 2750 5), w) ∧
    Forall2 (line_of (products (db w))) (_get_cart w) items.
Proof.
  intros pA pB w. apply (cart_view_total w).
  - repeat constructor; simpl; by eexists.
  - split.
    + repeat constructor; vm_compute; reflexivity.
    + intros [|[|[|n]]]; vm_compute; reflexivity.
Defined.

(** C7 as stated fails: with a price of 99999999.99 and a quantity of
    10^20 + 1, which [cart_update] stores, the product has 30 digits and
    [Decimal] rounds it; the total [cart_view] shows is one hundredth above
    the sum of quantity times price. *)
Lemma cart_view_total_rounded :
  let pA := Product.mk 1 "A" "a" "" 9999999999 5 true in
  let w0 := {| db := mkDB {[1 := pA]} [] []; session_cart := None |} in
  let w := (cart_update POST 1 (qty_int (10 ^ 20 + 1)) w0).2 in
  resolvable (products (db w)) (_get_cart w) ∧
  cart_amount (products (db w)) (_get_cart w) =
    999999999900000000009999999999%Z ∧
  ∃ items,
    cart_view w =
      (Render (cart_html items 999999999900000000010000000000
                 (10 ^ 20 + 1)), w) ∧
    (999999999900000000010000000000 ≠
       cart_amount (products (db w)) (_get_cart w))%Z.
Proof.
  intros pA w0 w. split_and!.
  - repeat constructor. by eexists.
  - vm_compute. reflexivity.
  - eexists. split; [vm_compute; reflexivity|]. vm_compute. discriminate.
Qed.

(** ** Checkout on an empty cart *)

(** C3. A checkout on an empty cart, on any method and with any form,
    leaves the state as it was: no order, no order item, no stock change, no
    change to the session.  For a logged-in visitor the answer is the "cart
    is empty" error with a redirect to the catalog. *)
Theorem checkout_empty_cart (method : Method) (user : option nat)
    (f : CheckoutForm.t) (w : World) :
  _get_cart w = [] →
  (checkout method user f w).2 = w ∧
  ∀ u, user = Some u →
    (checkout method user f w).1 =
      Redirect Url.product_list [(level_error, "Your cart is empty.")].
Proof.
  intros Hcart. unfold checkout. rewrite Hcart.
  destruct user as [u|]; split; done.
Qed.

Lemma checkout_empty_cart_witness :
  let pA := Product.mk 1 "A" "a" "" 1000 5 true in
  let w := {| db := mkDB {[1 := pA]} [] []; session_cart := Some [] |} in
  let f := CheckoutForm.mk (Some "Ann") (Some "ann@example.com") (Some "1")
             (Some "Street") (Some "City") (Some "State") (Some "560001") in
  (checkout POST (Some 3) f w).2 = w ∧
  (checkout POST (Some 3) f w).1 =
    Redirect Url.product_list [(level_error, "Your cart is empty.")].
Proof.
  intros pA w f.
  destruct (checkout_empty_cart POST (Some 3) f w) as [Hstate Hresp];
    [reflexivity|].
  split; [exact Hstate | exact (Hresp 3 eq_refl)].
Defined.

(** ** Looking up an order *)

(** C10. [order_success] shows an order only when the row with that key
    exists and its [user] is the requesting logged-in user; for a key with no
    row, or a row of another user or of no user, it raises the 404 of
    [Order]; an anonymous visitor is sent to the login page.  The state is
    not changed. *)
Theorem order_success_owner_only (user : option nat) (order_id : nat)
    (w : World) :
  (∀ o, (order_success user order_id w).1 = Render (order_success_html o) →
        ∃ u, user = Some u ∧
             Order_by_pk order_id (db w) = Some o ∧
             Order.user o = Some u) ∧
  (∀ u o, user = Some u →
          Order_by_pk order_id (db w) = Some o →
          Order.user o = Some u →
          (order_success user order_id w).1 = Render (order_success_html o)) ∧
  (∀ u, user = Some u →
        (∀ o, Order_by_pk order_id (db w) = Some o → Order.user o ≠ Some u) →
        (order_success user order_id w).1 = Raise (Http404 "Order")) ∧
  (user = None →
     (order_success user order_id w).1 = Redirect Url.LOGIN_URL []) ∧
  (order_success user order_id w).2 = w.
Proof.
  unfold order_success, get_Order_or_404.
  destruct user as [u|]; simpl.
  - destruct (Order_by_pk order_id (db w)) as [o|] eqn:Ho.
    + destruct (decide (Order.user o = Some u)) as [Hu|Hu]; simpl.
      * split_and!; try done.
        -- intros o' [= <-]. by exists u.
        -- intros u' o' [= <-] [= <-] _. done.
        -- intros u' [= <-] Hno. by destruct (Hno o).
        -- by destruct w.
      * split_and!; try done.
        -- intros u' o' [= <-] [= <-] Hu'. done.
        -- by destruct w.
    + split_and!; try done. by destruct w.
  - split_and!; done.
Qed.

Lemma order_success_owner_only_witness :
  let mine := Order.mk (Some 3) "Ann" "ann@example.com" "1" "Street" "City"
                "State" "560001" true in
  let theirs := Order.mk (Some 8) "Bob" "bob@example.com" "2" "Road" "Town"
                  "State" "560002" true in
  let w := {| db := mkDB ∅ [mine; theirs] []; session_cart := None |} in
  (order_success (Some 3) 1 w).1 = Render (order_success_html mine) ∧
  (order_success (Some 3) 2 w).1 = Raise (Http404 "Order").
Proof.
  intros mine theirs w. split.
  - apply (order_success_owner_only (Some 3) 1 w) with (u := 3); reflexivity.
  - apply (order_success_owner_only (Some 3) 2 w) with (u := 3); [reflexivity|].
    intros o [= <-]. discriminate.
Defined.

(** ** The checkout loop *)

Lemma alter_decrement (ps : gmap nat Product.t) (pid : nat) (qty : Z)
    (p : Product.t) :
  ps !! pid = Some p →
  <[pid := decrement qty p]> ps = alter (decrement qty) pid ps.
Proof.
  intros Hp. apply map_eq. intros pk.
  rewrite lookup_alter, lookup_insert.
  case_decide; [subst; by rewrite Hp | done].
Qed.

Lemma active_Some_lookup (ps : gmap nat Product.t) (pk : nat) (p : Product.t) :
  active ps pk = Some p ↔ ps !! pk = Some p ∧ Product.is_active p = true.
Proof.
  unfold active. destruct (ps !! pk) as [p'|]; [|by split; [|intros []]].
  destruct (Product.is_active p') eqn:Ha; split.
  - by intros [= <-].
  - by intros [[= <-] _].
  - done.
  - intros [[= <-] Ha']. congruence.
Qed.

Lemma active_alter (ps : gmap nat Product.t) (pid pk : nat) (qty : Z) :
  active (alter (decrement qty) pid ps) pk =
    if decide (pid = pk) then decrement qty <$> active ps pk
    else active ps pk.
Proof.
  unfold active. rewrite lookup_alter.
  case_decide; [subst pk|done].
  destruct (ps !! pid) as [p|]; simpl; [|done].
  by destruct (Product.is_active p).
Qed.

Lemma is_Some_active_alter (ps : gmap nat Product.t) (pid pk : nat) (qty : Z) :
  is_Some (active (alter (decrement qty) pid ps) pk) ↔ is_Some (active ps pk).
Proof.
  rewrite active_alter. case_decide; [|done]. by rewrite fmap_is_Some.
Qed.

Lemma price_at_alter (ps : gmap nat Product.t) (pid pk : nat) (qty : Z) :
  price_at (alter (decrement qty) pid ps) pk = price_at ps pk.
Proof.
  unfold price_at. rewrite lookup_alter.
  case_decide; [subst pk|done]. by destruct (ps !! pid).
Qed.

Lemma resolvable_alter (ps : gmap nat Product.t) (pid : nat) (qty : Z)
    (d : dict) :
  resolvable (alter (decrement qty) pid ps) d ↔ resolvable ps d.
Proof.
  unfold resolvable. rewrite !Forall_forall.
  split; intros H kv Hin.
  - apply (is_Some_active_alter ps pid kv.1 qty). auto.
  - apply is_Some_active_alter. auto.
Qed.

Lemma order_lines_alter (order_id : nat) (ps : gmap nat Product.t)
    (pid : nat) (qty : Z) (d : dict) :
  order_lines order_id (alter (decrement qty) pid ps) d =
    order_lines order_id ps d.
Proof.
  unfold order_lines. apply list_fmap_ext. intros _ kv _.
  by rewrite price_at_alter.
Qed.

Lemma is_Some_active_sold (entries : dict) (ps : gmap nat Product.t) (pk : nat) :
  is_Some (active (sold entries ps) pk) ↔ is_Some (active ps pk).
Proof.
  revert ps. induction entries as [|[pid qty] entries IH]; intros ps; [done|].
  simpl. by rewrite IH, is_Some_active_alter.
Qed.

Lemma price_at_sold (entries : dict) (ps : gmap nat Product.t) (pk : nat) :
  price_at (sold entries ps) pk = price_at ps pk.
Proof.
  revert ps. induction entries as [|[pid qty] entries IH]; intros ps; [done|].
  simpl. by rewrite IH, price_at_alter.
Qed.

Lemma sold_lookup_other (entries : dict) (ps : gmap nat Product.t) (pk : nat) :
  pk ∉ entries.*1 → sold entries ps !! pk = ps !! pk.
Proof.
  revert ps. induction entries as [|[pid qty] entries IH]; intros ps; [done|].
  csimpl. rewrite not_elem_of_cons. intros [Hne Hnin].
  rewrite IH by done. by rewrite lookup_alter_ne.
Qed.

Lemma sold_lookup_entry (entries : dict) (ps : gmap nat Product.t)
    (pid : nat) (qty : Z) :
  dict_ok entries → (pid, qty) ∈ entries →
  sold entries ps !! pid = decrement qty <$> ps !! pid.
Proof.
  unfold dict_ok. revert ps.
  induction entries as [|[pid' qty'] entries IH]; intros ps Hnd Hin.
  - by apply elem_of_nil in Hin.
  - csimpl in *. apply NoDup_cons in Hnd as [Hfresh Hnd].
    apply elem_of_cons in Hin as [[= <- <-]|Hin].
    + rewrite sold_lookup_other by done. apply lookup_alter_eq.
    + rewrite IH by done. rewrite lookup_alter_ne; [done|].
      intros ->. apply Hfresh. apply list_elem_of_fmap. by exists (pid, qty).
Qed.

(** One turn of the loop, spelled out. *)
Lemma checkout_entry_step (order_id pid : nat) (qty : Z) (d : DB) :
  checkout_entry order_id (pid, qty) d =
    match active (products d) pid with
    | None => (inl (Http404 "Product"), d)
    | Some p =>
        if decide (qty < - int_max - 1 ∨ int_max < qty)%Z
        then (inl OverflowError, d)
        else if decide (0 ≤ qty)%Z then
          (inr tt,
           {| products := alter (decrement qty) pid (products d);
              orders := orders d;
              order_items :=
                order_items d ++ order_lines order_id (products d) [(pid, qty)] |})
        else (inl IntegrityError, d)
    end.
Proof.
  unfold checkout_entry, mbind, M_bind.
  rewrite get_Product_or_404_active.
  destruct (active (products d) pid) as [p|] eqn:Hp; [|done].
  unfold OrderItem_create; cbn [OrderItem.qty].
  destruct (decide (qty < - int_max - 1 ∨ int_max < qty)%Z); [done|].
  destruct (decide (0 ≤ qty)%Z); [|done].
  unfold Product_save; simpl.
  apply active_Some_lookup in Hp as Hlk. destruct Hlk as [Hlk _].
  unfold order_lines; simpl. rewrite (active_price_at _ _ _ Hp).
  f_equal. f_equal. by apply alter_decrement.
Qed.

Lemma for_each_cons {A : Type} (body : A → M unit) (x : A) (xs : list A)
    (d : DB) :
  for_each body (x :: xs) d =
    match body x d with
    | (inl e, d') => (inl e, d')
    | (inr _, d') => for_each body xs d'
    end.
Proof. reflexivity. Qed.

Lemma for_each_app {A : Type} (body : A → M unit) (xs ys : list A) (d : DB) :
  for_each body (xs ++ ys) d =
    match for_each body xs d with
    | (inl e, d') => (inl e, d')
    | (inr _, d') => for_each body ys d'
    end.
Proof.
  revert d. induction xs as [|x xs IH]; intros d; [done|].
  rewrite <- app_comm_cons, !for_each_cons.
  destruct (body x d) as [[e|[]] d']; [done|]. apply IH.
Qed.

(** The loop runs to its end exactly when every entry resolves and every
    quantity is one the column takes, and then it has written one line per
    entry and lowered the stock of each product sold. *)
Lemma for_each_checkout_ok (order_id : nat) (entries : dict) (d : DB) :
  resolvable (products d) entries →
  insertable entries →
  for_each (checkout_entry order_id) entries d =
    (inr tt,
     {| products := sold entries (products d);
        orders := orders d;
        order_items := order_items d ++ order_lines order_id (products d) entries |}).
Proof.
  revert d. induction entries as [|[pid qty] entries IH]; intros d Hres Hq.
  - simpl. unfold mret, M_ret, order_lines. simpl. rewrite app_nil_r.
    by destruct d.
  - apply Forall_cons in Hres as [[p Hp] Hres].
    apply Forall_cons in Hq as [Hqty Hq]. simpl in Hp, Hqty.
    rewrite for_each_cons, checkout_entry_step, Hp.
    rewrite decide_False by lia. rewrite decide_True by lia.
    rewrite IH; simpl.
    + rewrite order_lines_alter, <- app_assoc. done.
    + by apply resolvable_alter.
    + done.
Qed.

Lemma for_each_checkout_inv (order_id : nat) (entries : dict) (d d' : DB) :
  for_each (checkout_entry order_id) entries d = (inr tt, d') →
  resolvable (products d) entries ∧ insertable entries.
Proof.
  revert d. induction entries as [|[pid qty] entries IH]; intros d.
  - intros _. split; constructor.
  - rewrite for_each_cons, checkout_entry_step.
    destruct (active (products d) pid) as [p|] eqn:Hp; [|done].
    destruct (decide (qty < - int_max - 1 ∨ int_max < qty)%Z) as [|Hmax];
      [done|].
    destruct (decide (0 ≤ qty)%Z) as [Hqty|]; [|done].
    intros [Hres Hq]%IH. simpl in Hres. apply resolvable_alter in Hres.
    split; constructor; simpl; eauto. lia.
Qed.

(** The loop stops at the first entry that does not resolve; what the
    entries before it wrote stays written. *)
Lemma for_each_checkout_stale (order_id : nat) (pre post : dict) (pid : nat)
    (qty : Z) (d : DB) :
  resolvable (products d) pre →
  insertable pre →
  active (products d) pid = None →
  for_each (checkout_entry order_id) (pre ++ (pid, qty) :: post) d =
    (inl (Http404 "Product"),
     {| products := sold pre (products d);
        orders := orders d;
        order_items := order_items d ++ order_lines order_id (products d) pre |}).
Proof.
  intros Hres Hq Hstale.
  rewrite for_each_app, for_each_checkout_ok by done.
  rewrite for_each_cons, checkout_entry_step. simpl.
  destruct (active (sold pre (products d)) pid) as [p|] eqn:Hp; [|done].
  assert (is_Some (active (products d) pid)) as [p' Hp'].
  { apply (is_Some_active_sold pre). by exists p. }
  congruence.
Qed.

Lemma qty_ok_insertable (d : dict) : qty_ok d → qty_fits d → insertable d.
Proof.
  unfold qty_ok, qty_fits, insertable. rewrite !Forall_forall.
  intros Hq Hfit kv Hin. specialize (Hq kv Hin). specialize (Hfit kv Hin).
  simpl in *. lia.
Qed.

Lemma insertable_nonneg (d : dict) :
  insertable d → Forall (λ kv, (0 ≤ kv.2)%Z) d.
Proof. intros Hq. eapply Forall_impl; [exact Hq|]. intros kv; simpl. lia. Qed.

(** A [POST] checkout whose form carries every contact field and whose cart
    entries all resolve places the order. *)
Lemma checkout_placed (user : nat) (f : CheckoutForm.t) (row : Order.t)
    (w : World) :
  _get_cart w ≠ [] →
  Order_row user f = Some row →
  resolvable (products (db w)) (_get_cart w) →
  insertable (_get_cart w) →
  checkout POST (Some user) f w =
    (Redirect (Url.order_success (S (length (orders (db w))))) [],
     {| db := ordered row (_get_cart w) (db w); session_cart := Some [] |}).
Proof.
  intros Hne Hrow Hres Hq. unfold checkout.
  destruct (_get_cart w) as [|kv cart] eqn:Hcart; [done|].
  unfold place_order, mbind, M_bind, Order_create. rewrite Hrow.
  rewrite for_each_checkout_ok by done. done.
Qed.

(** Conversely, a checkout that redirects to the success page was such a
    request. *)
Lemma checkout_success_inv (method : Method) (user : option nat)
    (f : CheckoutForm.t) (w : World) (order_id : nat)
    (flash : list (Level * string)) :
  (checkout method user f w).1 = Redirect (Url.order_success order_id) flash →
  ∃ u row,
    method = POST ∧ user = Some u ∧ Order_row u f = Some row ∧
    _get_cart w ≠ [] ∧
    resolvable (products (db w)) (_get_cart w) ∧
    insertable (_get_cart w) ∧
    order_id = S (length (orders (db w))) ∧
    (checkout method user f w).2 =
      {| db := ordered row (_get_cart w) (db w); session_cart := Some [] |}.
Proof.
  unfold checkout. destruct user as [u|]; [|done].
  destruct (_get_cart w) as [|kv cart] eqn:Hcart; [done|].
  destruct method; [done|].
  destruct (place_order u f (kv :: cart) (db w)) as [[e|oid] d'] eqn:Hplace;
    [done|].
  simpl. intros [= -> <-].
  unfold place_order, mbind, M_bind, Order_create in Hplace.
  destruct (Order_row u f) as [row|] eqn:Hrow; [|done].
  match type of Hplace with
  | context [for_each ?b ?l ?d0] =>
      destruct (for_each b l d0) as [[e|[]] d1] eqn:Hloop; [done|]
  end.
  unfold mret, M_ret in Hplace. injection Hplace as <- <-.
  apply for_each_checkout_inv in Hloop as Hinv. destruct Hinv as [Hres Hq].
  simpl in Hres, Hq.
  rewrite for_each_checkout_ok in Hloop by done. injection Hloop as <-.
  exists u, row. split_and!; try done.
Qed.

(** ** The run of a checkout *)

Lemma resolvable_sold (entries : dict) (ps : gmap nat Product.t) (d : dict) :
  resolvable (sold entries ps) d ↔ resolvable ps d.
Proof.
  unfold resolvable. rewrite !Forall_forall.
  split; intros H kv Hin.
  - apply (is_Some_active_sold entries ps kv.1). auto.
  - apply is_Some_active_sold. auto.
Qed.

Lemma set_stock_set_stock (p : Product.t) (s s' : Z) :
  set_stock (set_stock p s) s' = set_stock p s'.
Proof. reflexivity. Qed.

(** The rows of the product table after a sale: none added, none removed,
    and each the old row with a stock between 0 and the old stock. *)
Lemma sold_lookup (entries : dict) (ps : gmap nat Product.t) (pk : nat) :
  Forall (λ kv, (0 ≤ kv.2)%Z) entries →
  match ps !! pk with
  | None => sold entries ps !! pk = None
  | Some p =>
      ∃ s, sold entries ps !! pk = Some (set_stock p s) ∧
           ((0 ≤ Product.stock p)%Z → (0 ≤ s ≤ Product.stock p)%Z)
  end.
Proof.
  revert ps. induction entries as [|[pid qty] entries IH]; intros ps Hq.
  - simpl. destruct (ps !! pk) as [p|]; [|done].
    exists (Product.stock p). split; [by destruct p | lia].
  - apply Forall_cons in Hq as [Hqty Hq]. simpl in Hqty. simpl.
    specialize (IH (alter (decrement qty) pid ps) Hq).
    rewrite lookup_alter in IH.
    destruct (decide (pid = pk)) as [->|Hne]; [|done].
    destruct (ps !! pk) as [p|]; simpl in IH; [|done].
    destruct IH as (s & Hs & Hbound). exists s.
    split; [by rewrite Hs|].
    intros Hp. simpl in Hbound. lia.
Qed.

(** The store after the loop of [checkout], however it ended: the entries
    it got through form a prefix of the cart, all resolvable. *)
Lemma for_each_checkout_run (order_id : nat) (entries : dict) (d : DB) :
  ∃ ran,
    ran `prefix_of` entries ∧
    resolvable (products d) ran ∧
    insertable ran ∧
    (for_each (checkout_entry order_id) entries d).2 =
      {| products := sold ran (products d);
         orders := orders d;
         order_items := order_items d ++ order_lines order_id (products d) ran |}.
Proof.
  revert d. induction entries as [|[pid qty] entries IH]; intros d.
  - exists []. split_and!; [done | constructor | constructor |].
    simpl. unfold order_lines; simpl. rewrite app_nil_r. by destruct d.
  - assert (d = {| products := sold [] (products d);
                   orders := orders d;
                   order_items :=
                     order_items d ++ order_lines order_id (products d) [] |})
      as Hstay.
    { unfold order_lines; simpl. rewrite app_nil_r. by destruct d. }
    rewrite for_each_cons, checkout_entry_step.
    destruct (active (products d) pid) as [p|] eqn:Hp.
    2:{ exists []. split_and!;
          [apply prefix_nil | constructor | constructor | exact Hstay]. }
    destruct (decide (qty < - int_max - 1 ∨ int_max < qty)%Z) as [|Hmax].
    { exists []. split_and!;
        [apply prefix_nil | constructor | constructor | exact Hstay]. }
    destruct (decide (0 ≤ qty)%Z) as [Hqty|].
    2:{ exists []. split_and!;
          [apply prefix_nil | constructor | constructor | exact Hstay]. }
    match goal with
    | |- context [for_each _ entries ?d1] =>
        destruct (IH d1) as (ran & Hpre & Hres & Hq & Hrun)
    end.
    simpl in Hres. apply resolvable_alter in Hres.
    exists ((pid, qty) :: ran). split_and!.
    + by apply prefix_cons.
    + constructor; [by exists p | done].
    + constructor; [simpl; lia | done].
    + rewrite Hrun. simpl. rewrite order_lines_alter, <- app_assoc. done.
Qed.

(** A checkout either leaves the state as it was, or it has inserted the
    order row and got through a prefix of the cart. *)
Lemma checkout_run (method : Method) (user : option nat) (f : CheckoutForm.t)
    (w : World) :
  (checkout method user f w).2 = w ∨
  ∃ u row ran,
    user = Some u ∧ method = POST ∧ Order_row u f = Some row ∧
    ran `prefix_of` _get_cart w ∧
    resolvable (products (db w)) ran ∧
    insertable ran ∧
    db (checkout method user f w).2 = ordered row ran (db w).
Proof.
  unfold checkout. destruct user as [u|]; [|by left].
  destruct (_get_cart w) as [|kv cart] eqn:Hcart; [by left|].
  destruct method; [by left|].
  unfold place_order, mbind, M_bind, Order_create.
  destruct (Order_row u f) as [row|] eqn:Hrow; [|left; by destruct w].
  right.
  match goal with
  | |- context [for_each ?b ?l ?d0] =>
      destruct (for_each_checkout_run (S (length (orders (db w)))) l d0)
        as (ran & Hpre & Hres & Hq & Hrun);
      destruct (for_each b l d0) as [[e|[]] d1] eqn:Hloop
  end; simpl in Hrun, Hres; subst d1;
    exists u, row, ran; split_and!; done.
Qed.

(** ** Checkout with a stale cart entry *)

(** The cart up to its first entry that does not resolve. *)
Lemma first_stale_entry (ps : gmap nat Product.t) (d : dict) :
  ¬ resolvable ps d →
  ∃ pre pid qty post,
    d = pre ++ (pid, qty) :: post ∧ resolvable ps pre ∧ active ps pid = None.
Proof.
  unfold resolvable. induction d as [|[pid qty] d IH]; intros Hnot.
  - destruct Hnot. constructor.
  - destruct (active ps pid) as [p|] eqn:Hp.
    + destruct IH as (pre & pid' & qty' & post & -> & Hpre & Hstale).
      { intros Hd. apply Hnot. constructor; [by exists p | done]. }
      exists ((pid, qty) :: pre), pid', qty', post.
      split_and!; [done | | done]. constructor; [by exists p | done].
    + exists [], pid, qty, d. split_and!; [done | constructor | done].
Qed.

Lemma checkout_stops_at_stale (user : nat) (f : CheckoutForm.t) (row : Order.t)
    (w : World) (pre post : dict) (pid : nat) (qty : Z) :
  Order_row user f = Some row →
  _get_cart w = pre ++ (pid, qty) :: post →
  resolvable (products (db w)) pre →
  insertable pre →
  active (products (db w)) pid = None →
  checkout POST (Some user) f w =
    (Raise (Http404 "Product"),
     {| db := ordered row pre (db w); session_cart := session_cart w |}).
Proof.
  intros Hrow Hcart Hres Hq Hstale. unfold checkout.
  rewrite Hcart. destruct (pre ++ (pid, qty) :: post) as [|kv l] eqn:Hl.
  { by destruct pre. }
  rewrite <- Hl. unfold place_order, mbind, M_bind, Order_create.
  rewrite Hrow. rewrite for_each_checkout_stale by done. done.
Qed.

(** C1, as the code has it.  On a [POST] checkout by a logged-in visitor
    whose form carries all seven contact fields and whose cart holds
    quantities from 1 to the largest integer the database stores, when some
    entry of the cart references a product that is missing or inactive, the
    request ends in the 404 of [Product] at the first such entry, and the
    session cart is left as it was; that entry and those after it write
    nothing.  The writes made ahead of it are not undone: the order row
    inserted before the loop stays in the store, and so do the order item
    and the stock decrement of every entry ahead of the stale one. *)
Theorem checkout_stale_entry (user : nat) (f : CheckoutForm.t) (row : Order.t)
    (w : World) :
  Order_row user f = Some row →
  qty_ok (_get_cart w) →
  qty_fits (_get_cart w) →
  ¬ resolvable (products (db w)) (_get_cart w) →
  ∃ pre pid qty post,
    _get_cart w = pre ++ (pid, qty) :: post ∧
    resolvable (products (db w)) pre ∧
    active (products (db w)) pid = None ∧
    checkout POST (Some user) f w =
      (Raise (Http404 "Product"),
       {| db := ordered row pre (db w); session_cart := session_cart w |}) ∧
    orders (ordered row pre (db w)) = orders (db w) ++ [row].
Proof.
  intros Hrow Hq Hfit Hnot.
  destruct (first_stale_entry _ _ Hnot)
    as (pre & pid & qty & post & Hcart & Hpre & Hstale).
  exists pre, pid, qty, post. split_and!; try done.
  eapply checkout_stops_at_stale; try done.
  pose proof (qty_ok_insertable _ Hq Hfit) as Hins.
  unfold insertable in *. rewrite Hcart in Hins.
  by apply Forall_app in Hins as [? _].
Qed.

Lemma checkout_stale_entry_witness :
  let pA := Product.mk 1 "A" "a" "" 1000 5 true in
  let pB := Product.mk 1 "B" "b" "" 250 1 false in
  let w := {| db := mkDB (<[1 := pA]> (<[2 := pB]> ∅)) [] [];
              session_cart := Some [(1, 2%Z); (2, 1%Z)] |} in
  let f := CheckoutForm.mk (Some "Ann") (Some "ann@example.com") (Some "1")
             (Some "Street") (Some "City") (Some "State") (Some "560001") in
  let row := Order.mk (Some 3) "Ann" "ann@example.com" "1" "Street" "City"
               "State" "560001" true in
  ∃ pre pid qty post,
    _get_cart w = pre ++ (pid, qty) :: post ∧
    resolvable (products (db w)) pre ∧
    active (products (db w)) pid = None ∧
    checkout POST (Some 3) f w =
      (Raise (Http404 "Product"),
       {| db := ordered row pre (db w); session_cart := session_cart w |}) ∧
    orders (ordered row pre (db w)) = orders (db w) ++ [row].
Proof.
  intros pA pB w f row.
  apply (checkout_stale_entry 3 f row w).
  - reflexivity.
  - repeat constructor; simpl; lia.
  - repeat constructor; by vm_compute.
  - intros Hres. apply Forall_cons in Hres as [_ Hres].
    apply Forall_cons in Hres as [[p Hp] _]. discriminate.
Defined.

(** C1 as stated fails: product 2 has been deactivated, the checkout ends in
    the 404, and yet the store is not the one before the request: it holds
    the new order, the order item of product 1 and the lowered stock of
    product 1. *)
Lemma checkout_stale_entry_not_rolled_back :
  let pA := Product.mk 1 "A" "a" "" 1000 5 true in
  let pB := Product.mk 1 "B" "b" "" 250 1 false in
  let w := {| db := mkDB (<[1 := pA]> (<[2 := pB]> ∅)) [] [];
              session_cart := Some [(1, 2%Z); (2, 1%Z)] |} in
  let f := CheckoutForm.mk (Some "Ann") (Some "ann@example.com") (Some "1")
             (Some "Street") (Some "City") (Some "State") (Some "560001") in
  let r := checkout POST (Some 3) f w in
  active (products (db w)) 2 = None ∧
  r.1 = Raise (Http404 "Product") ∧
  orders (db r.2) =
    [Order.mk (Some 3) "Ann" "ann@example.com" "1" "Street" "City" "State"
       "560001" true] ∧
  order_items (db r.2) = [OrderItem.mk 1 1 2 1000] ∧
  Product.stock <$> products (db w) !! 1 = Some 5%Z ∧
  Product.stock <$> products (db r.2) !! 1 = Some 3%Z ∧
  db r.2 ≠ db w.
Proof.
  intros pA pB w f r. split_and!; try (vm_compute; reflexivity).
  intros Heq. apply (f_equal orders) in Heq. vm_compute in Heq. discriminate.
Qed.

(** ** Checkout and the contact fields *)

(** C2, as the code has it.  [checkout] does not validate the contact
    fields.  On a [POST] by a logged-in visitor with a non-empty cart of
    resolvable entries, in quantities from 1 to the largest integer the
    database stores, whatever texts the seven contact fields carry, empty
    ones included, the order is placed: the new row stores the fields as
    they were submitted, and the visitor is redirected to the success
    page. *)
Theorem checkout_contact_not_validated (user : nat) (w : World)
    (full_name email phone address city state pincode : string) :
  _get_cart w ≠ [] →
  resolvable (products (db w)) (_get_cart w) →
  qty_ok (_get_cart w) →
  qty_fits (_get_cart w) →
  let f := CheckoutForm.mk (Some full_name) (Some email) (Some phone)
             (Some address) (Some city) (Some state) (Some pincode) in
  let row := Order.mk (Some user) full_name email phone address city state
               pincode true in
  checkout POST (Some user) f w =
    (Redirect (Url.order_success (S (length (orders (db w))))) [],
     {| db := ordered row (_get_cart w) (db w); session_cart := Some [] |}) ∧
  orders (ordered row (_get_cart w) (db w)) = orders (db w) ++ [row].
Proof.
  intros Hne Hres Hq Hfit f row. split; [|done].
  apply checkout_placed; try done. by apply qty_ok_insertable.
Qed.

Lemma checkout_contact_not_validated_witness :
  let pA := Product.mk 1 "A" "a" "" 1000 5 true in
  let w := {| db := mkDB {[1 := pA]} [] [];
              session_cart := Some [(1, 2%Z)] |} in
  let f := CheckoutForm.mk (Some "") (Some "") (Some "") (Some "") (Some "")
             (Some "") (Some "") in
  let row := Order.mk (Some 3) "" "" "" "" "" "" "" true in
  checkout POST (Some 3) f w =
    (Redirect (Url.order_success 1) [],
     {| db := ordered row [(1, 2%Z)] (db w); session_cart := Some [] |}) ∧
  orders (ordered row [(1, 2%Z)] (db w)) = [row].
Proof.
  intros pA w f row.
  apply (checkout_contact_not_validated 3 w "" "" "" "" "" "" "").
  - discriminate.
  - repeat constructor. by eexists.
  - repeat constructor. simpl. lia.
  - repeat constructor. by vm_compute.
Defined.

(** C2 as stated fails: the full name is empty, and the checkout succeeds
    and stores an order with the empty name. *)
Lemma checkout_empty_full_name_accepted :
  let pA := Product.mk 1 "A" "a" "" 1000 5 true in
  let w := {| db := mkDB {[1 := pA]} [] [];
              session_cart := Some [(1, 2%Z)] |} in
  let f := CheckoutForm.mk (Some "") (Some "ann@example.com") (Some "1")
             (Some "Street") (Some "City") (Some "State") (Some "560001") in
  let r := checkout POST (Some 3) f w in
  CheckoutForm.full_name f = Some "" ∧
  r.1 = Redirect (Url.order_success 1) [] ∧
  orders (db w) = [] ∧
  orders (db r.2) =
    [Order.mk (Some 3) "" "ann@example.com" "1" "Street" "City" "State"
       "560001" true].
Proof. intros pA w f r. split_and!; vm_compute; reflexivity. Qed.

(** ** Successful checkout *)

(** C4. After a checkout that succeeded (it redirected to the success
    page), the session cart is the empty cart, every product of the cart has
    the stock [max(0, stock_before - qty)], which is not negative, and the
    products outside the cart have their rows unchanged. *)
Theorem checkout_success_cart_and_stock (method : Method) (user : option nat)
    (f : CheckoutForm.t) (w : World) (order_id : nat)
    (flash : list (Level * string)) :
  dict_ok (_get_cart w) →
  (checkout method user f w).1 = Redirect (Url.order_success order_id) flash →
  let w' := (checkout method user f w).2 in
  session_cart w' = Some [] ∧
  _get_cart w' = [] ∧
  (∀ pid qty, (pid, qty) ∈ _get_cart w →
     ∃ p p',
       products (db w) !! pid = Some p ∧
       products (db w') !! pid = Some p' ∧
       Product.stock p' = Z.max 0 (Product.stock p - qty) ∧
       (0 ≤ Product.stock p')%Z) ∧
  (∀ pid, pid ∉ (_get_cart w).*1 →
     products (db w') !! pid = products (db w) !! pid).
Proof.
  intros Hnd Hok.
  apply checkout_success_inv in Hok
    as (u & row & -> & -> & Hrow & Hne & Hres & Hq & -> & Hw').
  cbv zeta. rewrite Hw'. simpl. split_and!; try done.
  - intros pid qty Hin.
    pose proof Hres as Hres'. unfold resolvable in Hres'.
    rewrite Forall_forall in Hres'. destruct (Hres' _ Hin) as [p Hp].
    simpl in Hp. apply active_Some_lookup in Hp as [Hp _].
    exists p, (decrement qty p).
    rewrite (sold_lookup_entry _ _ pid qty) by done. rewrite Hp.
    split_and!; try done. simpl. lia.
  - intros pid Hnin. by apply sold_lookup_other.
Qed.

Lemma checkout_success_cart_and_stock_witness :
  let pA := Product.mk 1 "A" "a" "" 1000 5 true in
  let w0 := {| db := mkDB {[1 := pA]} [] []; session_cart := None |} in
  let w := (cart_add 1 (cart_add 1 w0).2).2 in
  let f := CheckoutForm.mk (Some "Ann") (Some "ann@example.com") (Some "1")
             (Some "Street") (Some "City") (Some "State") (Some "560001") in
  let w' := (checkout POST (Some 3) f w).2 in
  session_cart w' = Some [] ∧
  _get_cart w' = [] ∧
  (∀ pid qty, (pid, qty) ∈ _get_cart w →
     ∃ p p',
       products (db w) !! pid = Some p ∧
       products (db w') !! pid = Some p' ∧
       Product.stock p' = Z.max 0 (Product.stock p - qty) ∧
       (0 ≤ Product.stock p')%Z) ∧
  (∀ pid, pid ∉ (_get_cart w).*1 →
     products (db w') !! pid = products (db w) !! pid).
Proof.
  intros pA w0 w f.
  apply (checkout_success_cart_and_stock POST (Some 3) f w 1 []).
  - apply NoDup_singleton.
  - reflexivity.
Defined.

Lemma Product_saves_frame (saves : list (nat * Product.t)) (d : DB) :
  orders (Product_saves saves d).2 = orders d ∧
  order_items (Product_saves saves d).2 = order_items d.
Proof.
  unfold Product_saves. revert d.
  induction saves as [|[pk p] saves IH]; intros d; [done|].
  rewrite for_each_cons. unfold Product_save at 1. simpl.
  match goal with
  | |- context [for_each ?b saves ?d0] => destruct (IH d0) as [Ho Hi]
  end.
  by rewrite Ho, Hi.
Qed.

(** The order items a request has created: those of the store after it
    that come after the ones that were there before it. *)
Lemma created_items_ordered (row : Order.t) (ran : dict) (d : DB) :
  drop (length (order_items d)) (order_items (ordered row ran d)) =
    order_lines (S (length (orders d))) (products d) ran.
Proof. unfold ordered. simpl. by rewrite drop_app_length. Qed.

Lemma order_lines_snapshot (order_id : nat) (ps : gmap nat Product.t)
    (ran : dict) (item : OrderItem.t) :
  resolvable ps ran →
  item ∈ order_lines order_id ps ran →
  ∃ p, active ps (OrderItem.product item) = Some p ∧
       OrderItem.price item = Product.price p ∧
       price_at (sold ran ps) (OrderItem.product item) = Product.price p.
Proof.
  intros Hres ([pid qty] & -> & Hin)%list_elem_of_fmap. simpl.
  unfold resolvable in Hres. rewrite Forall_forall in Hres.
  destruct (Hres _ Hin) as [p Hp]. simpl in Hp.
  exists p. rewrite price_at_sold, (active_price_at _ _ _ Hp). done.
Qed.

(** C5. Whatever the outcome of a checkout (success, or an error raised
    part of the way through the cart), the order items it has created are
    appended to the ones already stored, and each of them is for a product
    that was active in the store at the checkout and carries in [price] the
    price that product had then, which is still its price in the store after
    the checkout.  On success the items created are one per cart entry.  Any
    later saves of product rows, whatever their new prices, leave every
    order item as it is, and with it the total of every order. *)
Theorem checkout_price_snapshot (method : Method) (user : option nat)
    (f : CheckoutForm.t) (w : World) :
  let w' := (checkout method user f w).2 in
  let created := drop (length (order_items (db w))) (order_items (db w')) in
  order_items (db w') = order_items (db w) ++ created ∧
  (∀ item, item ∈ created →
     ∃ p, active (products (db w)) (OrderItem.product item) = Some p ∧
          OrderItem.price item = Product.price p ∧
          price_at (products (db w')) (OrderItem.product item) =
            Product.price p) ∧
  (∀ order_id flash,
     (checkout method user f w).1 = Redirect (Url.order_success order_id) flash →
     created = order_lines order_id (products (db w)) (_get_cart w)) ∧
  (∀ saves,
     let d'' := (Product_saves saves (db w')).2 in
     order_items d'' = order_items (db w') ∧
     ∀ order_id,
       Order_total_amount order_id d'' = Order_total_amount order_id (db w')).
Proof.
  cbv zeta. split_and!.
  - destruct (checkout_run method user f w)
      as [->|(u & row & ran & _ & _ & _ & _ & _ & _ & ->)].
    + by rewrite drop_all, app_nil_r.
    + by rewrite created_items_ordered.
  - destruct (checkout_run method user f w)
      as [->|(u & row & ran & _ & _ & _ & _ & Hres & _ & ->)].
    + rewrite drop_all. by intros item ?%elem_of_nil.
    + rewrite created_items_ordered. intros item Hin.
      by apply (order_lines_snapshot (S (length (orders (db w))))).
  - intros order_id flash Hok.
    apply checkout_success_inv in Hok
      as (u & row & -> & -> & Hrow & Hne & Hres & Hq & -> & ->).
    cbn [db]. by rewrite created_items_ordered.
  - intros saves.
    match goal with
    | |- context [Product_saves saves ?d0] =>
        destruct (Product_saves_frame saves d0) as [_ Hitems]
    end.
    split; [done|]. intros order_id. unfold Order_total_amount, Order_items.
    by rewrite Hitems.
Qed.

(** A checkout that raises at its second entry: the item it wrote for the
    first entry carries the price of its product all the same. *)
Example stale_checkout_item_price :
  let pA := Product.mk 1 "A" "a" "" 1000 5 true in
  let pB := Product.mk 2 "B" "b" "" 250 1 false in
  let w := {| db := mkDB (<[1 := pA]> (<[2 := pB]> ∅)) [] [];
              session_cart := Some [(1, 2%Z); (2, 1%Z)] |} in
  let f := CheckoutForm.mk (Some "Ann") (Some "ann@example.com") (Some "1")
             (Some "Street") (Some "City") (Some "State") (Some "560001") in
  let r := checkout POST (Some 3) f w in
  r.1 = Raise (Http404 "Product") ∧
  drop (length (order_items (db w))) (order_items (db r.2)) =
    [OrderItem.mk 1 1 2 1000].
Proof. split; vm_compute; reflexivity. Qed.

Lemma checkout_price_snapshot_witness :
  let pA := Product.mk 1 "A" "a" "" 1000 5 true in
  let pB := Product.mk 2 "B" "b" "" 250 1 false in
  let w := {| db := mkDB (<[1 := pA]> (<[2 := pB]> ∅)) [] [];
              session_cart := Some [(1, 2%Z); (2, 1%Z)] |} in
  let f := CheckoutForm.mk (Some "Ann") (Some "ann@example.com") (Some "1")
             (Some "Street") (Some "City") (Some "State") (Some "560001") in
  let w' := (checkout POST (Some 3) f w).2 in
  let created := drop (length (order_items (db w))) (order_items (db w')) in
  order_items (db w') = order_items (db w) ++ created ∧
  (∀ item, item ∈ created →
     ∃ p, active (products (db w)) (OrderItem.product item) = Some p ∧
          OrderItem.price item = Product.price p ∧
          price_at (products (db w')) (OrderItem.product item) =
            Product.price p) ∧
  (∀ order_id flash,
     (checkout POST (Some 3) f w).1 =
       Redirect (Url.order_success order_id) flash →
     created = order_lines order_id (products (db w)) (_get_cart w)) ∧
  (∀ saves,
     let d'' := (Product_saves saves (db w')).2 in
     order_items d'' = order_items (db w') ∧
     ∀ order_id,
       Order_total_amount order_id d'' = Order_total_amount order_id (db w')).
Proof.
  intros pA pB w f. exact (checkout_price_snapshot POST (Some 3) f w).
Defined.

(** The scenario of two adds and a checkout: product A at 10.00 with stock
    5 ends with one order, one line of quantity 2 at 10.00, stock 3 and an
    empty cart; a later change of the price of A to 12.50 shows in the
    catalog and not in the order. *)
Example two_adds_then_checkout :
  let pA := Product.mk 1 "A" "a" "" 1000 5 true in
  let w0 := {| db := mkDB {[1 := pA]} [] []; session_cart := None |} in
  let w := (cart_add 1 (cart_add 1 w0).2).2 in
  let f := CheckoutForm.mk (Some "Ann") (Some "ann@example.com") (Some "1")
             (Some "Street") (Some "City") (Some "State") (Some "560001") in
  let r := checkout POST (Some 3) f w in
  let d'' := (Product_save 1 (Product.mk 1 "A" "a" "" 1250 3 true) (db r.2)).2 in
  dict_sum_values (_get_cart w) = 2%Z ∧
  r.1 = Redirect (Url.order_success 1) [] ∧
  order_items (db r.2) = [OrderItem.mk 1 1 2 1000] ∧
  Product.stock <$> products (db r.2) !! 1 = Some 3%Z ∧
  session_cart r.2 = Some [] ∧
  price_at (products d'') 1 = 1250%Z ∧
  order_items d'' = [OrderItem.mk 1 1 2 1000] ∧
  Order_total_amount 1 d'' = 2000%Z.
Proof. repeat split; vm_compute; reflexivity. Qed.

(** ** Text *)

Lemma rsplit_at_Some (s a b : string) :
  rsplit_at s = Some (a, b) → s = a +:+ "@" +:+ b.
Proof.
  revert a. induction s as [|c s IH]; intros a; simpl; [done|].
  destruct (rsplit_at s) as [[name domain]|].
  - intros [= <- <-]. by rewrite (IH name eq_refl) at 1.
  - case_decide as Hc; [|done]. intros [= <- <-]. by rewrite Hc.
Qed.

(** An address that has been stripped and put in lower case is one that
    [normalize_email] leaves as it is. *)
Lemma normalize_email_lower_strip {text : Text} (s : string) :
  normalize_email (str_lower (str_strip s)) = str_lower (str_strip s).
Proof.
  unfold normalize_email.
  rewrite <- (str_lower_strip (str_strip s)), str_strip_strip.
  destruct (rsplit_at (str_lower (str_strip s))) as [[name domain]|] eqn:Hsplit;
    [|done].
  apply rsplit_at_Some in Hsplit.
  by rewrite (str_lower_domain _ _ _ Hsplit).
Qed.

Lemma str_lower_strip_eq {text : Text} (e1 e2 : string) :
  str_lower e1 = str_lower e2 →
  str_lower (str_strip e1) = str_lower (str_strip e2).
Proof. intros Hcase. by rewrite !str_lower_strip, Hcase. Qed.

Lemma isspace_lower_char (c : ascii) : isspace (lower_char c) = isspace c.
Proof. destruct c as [[] [] [] [] [] [] [] []]; reflexivity. Qed.

Lemma lower_lstrip (s : string) : lower (lstrip s) = lstrip (lower s).
Proof.
  induction s as [|c s IH]; simpl; [done|].
  rewrite isspace_lower_char. by destruct (isspace c).
Qed.

Lemma lower_rstrip (s : string) : lower (rstrip s) = rstrip (lower s).
Proof.
  induction s as [|c s IH]; simpl; [done|].
  rewrite <- IH, isspace_lower_char.
  destruct (rstrip s); simpl; [by destruct (isspace c) | done].
Qed.

Lemma lower_strip (s : string) : lower (strip s) = strip (lower s).
Proof. unfold strip. by rewrite lower_lstrip, lower_rstrip. Qed.

Lemma lstrip_lstrip (s : string) : lstrip (lstrip s) = lstrip s.
Proof.
  induction s as [|c s IH]; simpl; [done|].
  destruct (isspace c) eqn:Hc; [done|]. simpl. by rewrite Hc.
Qed.

Lemma rstrip_cons (c : ascii) (s : string) :
  rstrip (String c s) =
    match rstrip s with
    | EmptyString => if isspace c then EmptyString else String c EmptyString
    | r => String c r
    end.
Proof. reflexivity. Qed.

Lemma rstrip_rstrip (s : string) : rstrip (rstrip s) = rstrip s.
Proof.
  induction s as [|c s IH]; [done|].
  rewrite rstrip_cons. destruct (rstrip s) as [|c' r] eqn:Hr.
  - destruct (isspace c) eqn:Hc; [done|]. simpl. by rewrite Hc.
  - rewrite rstrip_cons, IH. done.
Qed.

Lemma rstrip_lstrip (s : string) : rstrip (lstrip s) = lstrip (rstrip s).
Proof.
  induction s as [|c s IH]; [done|].
  rewrite rstrip_cons. simpl lstrip at 1.
  destruct (isspace c) eqn:Hc.
  - rewrite IH. destruct (rstrip s) as [|c' r]; [done|]. simpl. by rewrite Hc.
  - rewrite rstrip_cons.
    destruct (rstrip s) as [|c' r]; simpl; by rewrite Hc.
Qed.

Lemma strip_strip (s : string) : strip (strip s) = strip s.
Proof.
  unfold strip. by rewrite rstrip_lstrip, lstrip_lstrip, rstrip_rstrip.
Qed.

Lemma lower_char_lower_char (c : ascii) :
  lower_char (lower_char c) = lower_char c.
Proof. destruct c as [[] [] [] [] [] [] [] []]; reflexivity. Qed.

Lemma lower_lower (s : string) : lower (lower s) = lower s.
Proof.
  induction s as [|c s IH]; simpl; [done|].
  by rewrite lower_char_lower_char, IH.
Qed.

Lemma lower_domain (s a b : string) :
  lower s = a +:+ "@" +:+ b → lower b = b.
Proof.
  revert s. induction a as [|c a IH]; intros [|c' s] Hs; try done.
  - change (String (lower_char c') (lower s) = String "@" b) in Hs.
    injection Hs as _ <-. apply lower_lower.
  - change (String (lower_char c') (lower s) =
            String c (a +:+ "@" +:+ b)) in Hs.
    injection Hs as _ Hs. by apply (IH s).
Qed.

(** The interface on text of ASCII characters and the ligature U+FB01. *)
#[export] Instance ascii_text : Text :=
  {| str_lower := lower;
     str_strip := strip;
     normalize_username := nfkc_fi;
     str_strip_strip := strip_strip;
     str_lower_strip := lower_strip;
     str_lower_domain := lower_domain |}.

(** ** Registration *)

Lemma User_filter_email_insert (users : gmap string User.t) (name : string)
    (u : User.t) :
  User_filter_email (User.email u) (<[name := u]> users) ≠ [].
Proof.
  intros Hnil.
  assert ((name, u) ∈ User_filter_email (User.email u) (<[name := u]> users))
    as Hin.
  { unfold User_filter_email. apply list_elem_of_filter. split; [done|].
    apply elem_of_map_to_list. apply lookup_insert_eq. }
  rewrite Hnil in Hin. by apply elem_of_nil in Hin.
Qed.

(** The registration that goes through. *)
Lemma register_view_created {text : Text} (make_password : option string → string)
    (users : gmap string User.t) (u e : string) (p : option string) :
  str_strip u ≠ "" →
  users !! str_strip u = None →
  users !! normalize_username (str_strip u) = None →
  User_filter_email (str_lower (str_strip e)) users = [] →
  register_view make_password POST None
    (RegisterForm.mk (Some u) (Some e) p p) users =
    (Redirect Url.login
       [(level_success, "Registration successful. Please log in.")],
     <[normalize_username (str_strip u) :=
         {| User.email := str_lower (str_strip e);
            User.password := make_password p;
            User.is_active := true |}]> users).
Proof.
  intros Hu Hfree Hstored Hemail. unfold register_view; simpl.
  rewrite decide_False by (intros H; by apply H).
  rewrite decide_False by (rewrite Hfree; by intros [? ?]).
  rewrite decide_False by (intros H; by apply H).
  unfold create_user. rewrite decide_False by done. cbv zeta.
  by rewrite normalize_email_lower_strip, Hstored.
Qed.

(** C8. Two registrations in a row that give the same email address up to
    letter case, with matching passwords each, the address not being
    registered before, and with usernames that are available: the first,
    once stripped, is not empty and is free both as typed and in the
    normalised form it is stored in; the second, once stripped, is free and
    is not the name the first is stored under.  The first creates the
    account, stored under the normalised stripped username with the stripped
    lower-case address, and redirects to the login page; the second is
    refused with "Email already registered" and writes nothing. *)
Theorem register_same_email_twice {text : Text}
    (make_password : option string → string)
    (users : gmap string User.t) (u1 u2 e1 e2 : string)
    (p1 p2 : option string) :
  str_lower e1 = str_lower e2 →
  str_strip u1 ≠ "" →
  users !! str_strip u1 = None →
  users !! normalize_username (str_strip u1) = None →
  users !! str_strip u2 = None →
  str_strip u2 ≠ normalize_username (str_strip u1) →
  User_filter_email (str_lower (str_strip e1)) users = [] →
  let first :=
    register_view make_password POST None
      (RegisterForm.mk (Some u1) (Some e1) p1 p1) users in
  let second :=
    register_view make_password POST None
      (RegisterForm.mk (Some u2) (Some e2) p2 p2) first.2 in
  first =
    (Redirect Url.login
       [(level_success, "Registration successful. Please log in.")],
     <[normalize_username (str_strip u1) :=
         {| User.email := str_lower (str_strip e1);
            User.password := make_password p1;
            User.is_active := true |}]> users) ∧
  second =
    (Render (auth_register_html (Some "Email already registered")), first.2).
Proof.
  intros Hcase Hu1 Hfree1 Hstored1 Hfree2 Hne Hemail.
  cbv zeta. rewrite register_view_created by done.
  split; [done|]. cbn [snd].
  unfold register_view; simpl.
  rewrite decide_False by (intros H; by apply H).
  rewrite decide_False
    by (rewrite lookup_insert_ne by done; rewrite Hfree2; by intros [? ?]).
  rewrite decide_True; [done|].
  rewrite <- (str_lower_strip_eq e1 e2 Hcase).
  apply (User_filter_email_insert users (normalize_username (str_strip u1))
           {| User.email := str_lower (str_strip e1);
              User.password := make_password p1;
              User.is_active := true |}).
Qed.

Lemma register_same_email_twice_witness :
  let make_password := λ p : option string, "pbkdf2$" +:+ default "!" p in
  let first :=
    register_view make_password POST None
      (RegisterForm.mk (Some "ann") (Some "Ann@Example.com") (Some "s3cret")
         (Some "s3cret")) ∅ in
  let second :=
    register_view make_password POST None
      (RegisterForm.mk (Some "bob") (Some "ann@example.COM") (Some "hunter2")
         (Some "hunter2")) first.2 in
  first =
    (Redirect Url.login
       [(level_success, "Registration successful. Please log in.")],
     <["ann" := {| User.email := "ann@example.com";
                   User.password := "pbkdf2$s3cret";
                   User.is_active := true |}]> ∅) ∧
  second =
    (Render (auth_register_html (Some "Email already registered")), first.2).
Proof.
  intros make_password.
  apply (register_same_email_twice (text := ascii_text) make_password ∅
           "ann" "bob" "Ann@Example.com" "ann@example.COM" (Some "s3cret")
           (Some "hunter2")).
  - reflexivity.
  - discriminate.
  - reflexivity.
  - reflexivity.
  - reflexivity.
  - discriminate.
  - reflexivity.
Defined.

(** X25. [register_view] keeps the email addresses of the accounts pairwise
    distinct. *)
Lemma register_view_emails_unique {text : Text}
    (make_password : option string → string)
    (method : Method) (request_user : option string) (f : RegisterForm.t)
    (users : gmap string User.t) :
  emails_unique users →
  emails_unique (register_view make_password method request_user f users).2.
Proof.
  intros Huniq. unfold register_view.
  destruct request_user; [done|]. destruct method; [done|].
  destruct (RegisterForm.username f) as [username|]; [|done].
  destruct (RegisterForm.email f) as [email|]; [|done].
  repeat (case_decide; [done|]).
  unfold create_user. case_decide; [done|]. cbv zeta.
  rewrite normalize_email_lower_strip.
  destruct (users !! normalize_username (str_strip username)) eqn:Hfree;
    [done|]. simpl.
  intros e. unfold User_filter_email.
  rewrite map_to_list_insert by done. rewrite filter_cons. simpl.
  case_decide as He; [|apply Huniq].
  subst e. simpl.
  match goal with
  | Hnil : User_filter_email _ _ = [] |- _ =>
      unfold User_filter_email in Hnil; by rewrite Hnil
  end.
Qed.

(** ** Logging in *)

(** X20. With at most one account per email address, a login that does not
    succeed always ends in the one generic error, whatever went wrong, and
    the visitor stays logged out. *)
Lemma login_failure_generic (check_password : string → string → bool)
    (users : gmap string User.t) (username password : option string) :
  emails_unique users →
  let r := login_view check_password POST None username password users in
  (∃ u, r = (Redirect Url.product_list [], Some u)) ∨
  r = (Render (auth_login_html (Some "Invalid credentials")), None).
Proof.
  intros Huniq. unfold login_view.
  destruct (authenticate check_password username password users) as [u|];
    [left; by exists u|].
  unfold User_get_email. destruct username as [e|]; [|by right].
  specialize (Huniq e).
  destruct (User_filter_email e users) as [|[name row] [|row' l]];
    [by right | | simpl in Huniq; lia].
  cbn [fst].
  destruct (authenticate check_password (Some name) password users) as [u|];
    [left; by exists u | by right].
Qed.

(** An identifier that is not the username of an account that authenticates
    is looked up as an email address before the login fails. *)
Lemma login_email_fallback (check_password : string → string → bool)
    (users : gmap string User.t) (identifier password : string)
    (name : string) (row : User.t) :
  authenticate check_password (Some identifier) (Some password) users = None →
  User_filter_email identifier users = [(name, row)] →
  login_view check_password POST None (Some identifier) (Some password) users =
    match authenticate check_password (Some name) (Some password) users with
    | Some u => (Redirect Url.product_list [], Some u)
    | None => (Render (auth_login_html (Some "Invalid credentials")), None)
    end.
Proof.
  intros Hauth Hget. unfold login_view, User_get_email.
  rewrite Hauth, Hget. cbn [fst].
  by destruct (authenticate check_password (Some name) (Some password) users).
Qed.

(** On a store with one account, the ways a login can fail give one and the
    same answer: a username nobody has, an email nobody has, and a wrong
    password for the account, named by username or by email. *)
Example login_failures_look_alike :
  let check_password := λ raw encoded : string, String.eqb ("h:" +:+ raw) encoded in
  let users : gmap string User.t :=
    {["ann" := User.mk "ann@example.com" "h:s3cret" true]} in
  let generic := (Render (auth_login_html (Some "Invalid credentials")), None) in
  login_view check_password POST None (Some "zed") (Some "s3cret") users = generic ∧
  login_view check_password POST None (Some "zed@example.com") (Some "s3cret")
    users = generic ∧
  login_view check_password POST None (Some "ann") (Some "guess") users = generic ∧
  login_view check_password POST None (Some "ann@example.com") (Some "guess")
    users = generic ∧
  login_view check_password POST None (Some "ann@example.com") (Some "s3cret")
    users = (Redirect Url.product_list [], Some "ann").
Proof. repeat split; vm_compute; reflexivity. Qed.

(** C9 at the failing input.  Two accounts share an email address; a login
    with that address and any password is not answered with the generic
    "Invalid credentials": the email lookup raises
    [MultipleObjectsReturned], which [login_view] does not catch. *)
Theorem login_shared_email_raises (check_password : string → string → bool)
    (password : string) :
  let users : gmap string User.t :=
    <["alice" := User.mk "shared@example.com" "hash-a" true]>
      (<["bob" := User.mk "shared@example.com" "hash-b" true]> ∅) in
  login_view check_password POST None (Some "shared@example.com")
    (Some password) users = (Raise MultipleObjectsReturned, None).
Proof. vm_compute. reflexivity. Qed.

(** * Further properties of the views *)

(** ** Adding to and removing from the cart *)

Lemma dict_sum_values_set (k : nat) (v : Z) (d : dict) :
  dict_sum_values (dict_set k v d) =
    (dict_sum_values d + v - default 0 (dict_get k d))%Z.
Proof.
  induction d as [|[k' v'] d IH]; simpl; [lia|].
  destruct (decide (k = k')) as [->|Hne]; simpl; [lia|].
  rewrite IH. lia.
Qed.

Lemma dict_pop_absent (k : nat) (d : dict) :
  dict_get k d = None → dict_pop k d = d.
Proof.
  unfold dict_pop. induction d as [|[k' v'] d IH]; simpl; [done|].
  destruct (decide (k = k')) as [->|Hne]; [done|]. intros Hd.
  rewrite filter_cons_True by (simpl; congruence). by rewrite IH.
Qed.

Lemma dict_pop_pop (k : nat) (d : dict) :
  dict_pop k (dict_pop k d) = dict_pop k d.
Proof. apply dict_pop_absent, dict_get_pop. Qed.

Lemma _get_cart_save (cart : dict) (w : World) :
  _get_cart (_save_cart cart w) = cart.
Proof. reflexivity. Qed.

Lemma cart_add_active (pid : nat) (p : Product.t) (w : World) :
  active (products (db w)) pid = Some p →
  cart_add pid w =
    (Redirect Url.cart
       [(level_success, "Added " +:+ Product.name p +:+ " to cart.")],
     _save_cart
       (dict_set pid (default 0 (dict_get pid (_get_cart w)) + 1)%Z
          (_get_cart w)) w).
Proof.
  intros Hp. unfold cart_add. rewrite get_Product_or_404_active, Hp.
  by destruct w.
Qed.

Lemma cart_add_stale (pid : nat) (w : World) :
  active (products (db w)) pid = None →
  cart_add pid w = (Raise (Http404 "Product"), w).
Proof.
  intros Hp. unfold cart_add. rewrite get_Product_or_404_active, Hp.
  by destruct w.
Qed.

(** X1. [cart_add] of an active product raises its quantity by one, starting
    from 0 for a product not yet in the cart; the other entries keep their
    quantities, the cart count grows by one and the store is not touched. *)
Theorem cart_add_increments (pid : nat) (p : Product.t) (w : World) :
  active (products (db w)) pid = Some p →
  let r := cart_add pid w in
  r.1 = Redirect Url.cart
          [(level_success, "Added " +:+ Product.name p +:+ " to cart.")] ∧
  dict_get pid (_get_cart r.2) =
    Some (default 0 (dict_get pid (_get_cart w)) + 1)%Z ∧
  (∀ pid', pid ≠ pid' →
     dict_get pid' (_get_cart r.2) = dict_get pid' (_get_cart w)) ∧
  dict_sum_values (_get_cart r.2) = (dict_sum_values (_get_cart w) + 1)%Z ∧
  db r.2 = db w.
Proof.
  intros Hp. cbv zeta. rewrite (cart_add_active _ _ _ Hp).
  cbn [fst snd]. rewrite !_get_cart_save. split_and!; try done.
  - apply dict_get_set.
  - intros pid' Hne. by apply dict_get_set_ne.
  - rewrite dict_sum_values_set. lia.
Qed.

Lemma cart_add_increments_witness :
  let pA := Product.mk 1 "A" "a" "" 1000 5 true in
  let w := {| db := mkDB {[1 := pA]} [] [];
              session_cart := Some [(1, 2%Z); (7, 1%Z)] |} in
  let r := cart_add 1 w in
  r.1 = Redirect Url.cart [(level_success, "Added A to cart.")] ∧
  dict_get 1 (_get_cart r.2) = Some 3%Z ∧
  (∀ pid', 1 ≠ pid' →
     dict_get pid' (_get_cart r.2) = dict_get pid' (_get_cart w)) ∧
  dict_sum_values (_get_cart r.2) = 4%Z ∧
  db r.2 = db w.
Proof.
  intros pA w. apply (cart_add_increments 1 pA w). reflexivity.
Defined.

(** X2. [cart_add] of a product that does not exist or is inactive raises the
    404 of [Product] and leaves the cart and the store as they were. *)
Theorem cart_add_unavailable (pid : nat) (w : World) :
  (products (db w) !! pid = None ∨
   ∃ p, products (db w) !! pid = Some p ∧ Product.is_active p = false) →
  cart_add pid w = (Raise (Http404 "Product"), w).
Proof.
  intros Hp. apply cart_add_stale. unfold active.
  destruct Hp as [->|(p & -> & ->)]; done.
Qed.

Lemma cart_add_unavailable_witness :
  let pB := Product.mk 1 "B" "b" "" 250 1 false in
  let w := {| db := mkDB {[2 := pB]} [] []; session_cart := Some [(7, 1%Z)] |} in
  cart_add 2 w = (Raise (Http404 "Product"), w) ∧
  cart_add 5 w = (Raise (Http404 "Product"), w).
Proof.
  intros pB w. split.
  - apply (cart_add_unavailable 2 w). right. by exists pB.
  - apply (cart_add_unavailable 5 w). by left.
Defined.

(** X3. [n] calls of [cart_add] for one active product add [n] to the cart
    count and, from the first call on, leave the product in the cart with
    its old quantity plus [n]. *)
Theorem cart_add_repeated (n : nat) (pid : nat) (p : Product.t) (w : World) :
  active (products (db w)) pid = Some p →
  let w' := cart_add_times n pid w in
  db w' = db w ∧
  dict_sum_values (_get_cart w') =
    (dict_sum_values (_get_cart w) + Z.of_nat n)%Z ∧
  (0 < n →
   dict_get pid (_get_cart w') =
     Some (default 0 (dict_get pid (_get_cart w)) + Z.of_nat n)%Z).
Proof.
  intros Hp. cbv zeta. induction n as [|n IH].
  - simpl. split_and!; [done | lia | lia].
  - destruct IH as (Hdb & Hsum & Hget).
    unfold cart_add_times in *. rewrite Nat.iter_succ.
    set (wn := Nat.iter n (λ w0, (cart_add pid w0).2) w) in *.
    assert (active (products (db wn)) pid = Some p) as Hpn by by rewrite Hdb.
    rewrite (cart_add_active _ _ _ Hpn).
    cbn [fst snd]. rewrite !_get_cart_save. split_and!.
    + done.
    + rewrite dict_sum_values_set. lia.
    + intros _. rewrite dict_get_set. f_equal.
      destruct n as [|n]; [simpl in *; subst wn; simpl; lia|].
      rewrite Hget by lia. simpl. lia.
Qed.

Lemma cart_add_repeated_witness :
  let pA := Product.mk 1 "A" "a" "" 1000 5 true in
  let w := {| db := mkDB {[1 := pA]} [] []; session_cart := None |} in
  let w' := cart_add_times 2 1 w in
  db w' = db w ∧
  dict_sum_values (_get_cart w') = 2%Z ∧
  dict_get 1 (_get_cart w') = Some 2%Z.
Proof.
  intros pA w.
  destruct (cart_add_repeated 2 1 pA w) as (Hdb & Hsum & Hget); [reflexivity|].
  split_and!; [exact Hdb | exact Hsum | apply Hget; lia].
Defined.

(** X4. [cart_remove] leaves no entry for the product and leaves the other
    entries and the store alone; on a cart without the product it changes
    no entry, and a second removal changes nothing more. *)
Theorem cart_remove_idempotent (pid : nat) (w : World) :
  let r := cart_remove pid w in
  r.1 = Redirect Url.cart [] ∧
  dict_get pid (_get_cart r.2) = None ∧
  (∀ pid', pid ≠ pid' →
     dict_get pid' (_get_cart r.2) = dict_get pid' (_get_cart w)) ∧
  (dict_get pid (_get_cart w) = None → _get_cart r.2 = _get_cart w) ∧
  cart_remove pid r.2 = r ∧
  db r.2 = db w.
Proof.
  cbv zeta. unfold cart_remove. cbn [fst snd]. rewrite !_get_cart_save.
  split_and!; try done.
  - apply dict_get_pop.
  - intros pid' Hne. by apply dict_get_pop_ne.
  - apply dict_pop_absent.
  - by rewrite dict_pop_pop.
Qed.

(** A run of cart requests keeps a well-formed cart well formed and the
    store as it is. *)
Lemma cart_requests_keep (rs : list CartRequest) (w : World) :
  cart_ok (_get_cart w) →
  cart_ok (_get_cart (cart_requests rs w)) ∧ db (cart_requests rs w) = db w.
Proof.
  unfold cart_requests. revert w.
  induction rs as [|r rs IH]; intros w Hok; [done|].
  simpl.
  assert (cart_ok (_get_cart (cart_request r w).2) ∧
          db (cart_request r w).2 = db w) as [Hok' Hdb].
  { destruct r as [pid|method pid qty|pid]; simpl.
    - split; [by apply cart_add_ok|].
      destruct (active (products (db w)) pid) as [p|] eqn:Hp.
      + by rewrite (cart_add_active _ _ _ Hp).
      + by rewrite (cart_add_stale _ _ Hp).
    - split; [by apply cart_update_ok|].
      unfold cart_update. destruct method; [done|]. by destruct qty.
    - split; [by apply cart_remove_ok | done]. }
  destruct (IH _ Hok') as [Hfin Hdbfin]. split; [done | congruence].
Qed.

(** X5. Whatever requests a visitor sends to the cart views, starting from a
    session without a cart, the cart keeps distinct product keys and
    quantities of at least 1, and the store is never written. *)
Theorem cart_requests_well_formed (rs : list CartRequest) (d : DB) :
  let w' := cart_requests rs {| db := d; session_cart := None |} in
  dict_ok (_get_cart w') ∧ qty_ok (_get_cart w') ∧ db w' = d.
Proof.
  cbv zeta.
  destruct (cart_requests_keep rs {| db := d; session_cart := None |})
    as [[Hd Hq] Hdb]; [apply cart_ok_nil | done].
Qed.

(** ** Edges of the cart views *)

Lemma cart_view_loop_stale (entries : dict) (d : DB) :
  ¬ resolvable (products d) entries →
  ∀ items total,
    cart_view_loop entries items total d = (inl (Http404 "Product"), d).
Proof.
  unfold resolvable. induction entries as [|[pid qty] entries IH];
    intros Hnot items total.
  - destruct Hnot. constructor.
  - simpl. unfold mbind, M_bind. rewrite get_Product_or_404_active.
    destruct (active (products d) pid) as [p|] eqn:Hp; [|done].
    apply IH. intros Hrest. apply Hnot. constructor; [by exists p | done].
Qed.

(** X6. When some entry of the cart references a product that is missing or
    inactive, [cart_view] does not render the other lines: it raises the 404
    of [Product], and the cart stays as it is, stale entry included. *)
Theorem cart_view_stale_entry (w : World) :
  ¬ resolvable (products (db w)) (_get_cart w) →
  cart_view w = (Raise (Http404 "Product"), w).
Proof.
  intros Hnot. unfold cart_view.
  rewrite (cart_view_loop_stale _ _ Hnot). by destruct w.
Qed.

Lemma cart_view_stale_entry_witness :
  let pA := Product.mk 1 "A" "a" "" 1000 5 true in
  let pB := Product.mk 1 "B" "b" "" 250 1 false in
  let w := {| db := mkDB (<[1 := pA]> (<[2 := pB]> ∅)) [] [];
              session_cart := Some [(1, 2%Z); (2, 1%Z)] |} in
  cart_view w = (Raise (Http404 "Product"), w).
Proof.
  intros pA pB w. apply (cart_view_stale_entry w).
  intros Hres. apply Forall_cons in Hres as [_ Hres].
  apply Forall_cons in Hres as [[p Hp] _]. discriminate.
Defined.

(** X7. [cart_update] does not look the product up: a quantity of at least 1
    for an id with no active product is stored all the same, and from then
    on [cart_view] raises the 404 of [Product]. *)
Theorem cart_update_unknown_product (pid : nat) (qty : Z) (w : World) :
  active (products (db w)) pid = None →
  (1 ≤ qty)%Z →
  let w' := (cart_update POST pid (qty_int qty) w).2 in
  dict_get pid (_get_cart w') = Some qty ∧
  cart_view w' = (Raise (Http404 "Product"), w').
Proof.
  intros Hp Hq. cbv zeta. unfold cart_update.
  rewrite decide_False by lia. cbn [snd]. rewrite _get_cart_save.
  split; [apply dict_get_set|].
  unfold cart_view. rewrite _get_cart_save.
  rewrite cart_view_loop_stale; [done|].
  unfold resolvable. rewrite Forall_forall. intros Hall.
  destruct (Hall (pid, qty)) as [p Hp'].
  - apply dict_get_Some_elem, dict_get_set.
  - simpl in Hp'. congruence.
Qed.

Lemma cart_update_unknown_product_witness :
  let w := {| db := mkDB ∅ [] []; session_cart := None |} in
  let w' := (cart_update POST 9 (qty_int 3) w).2 in
  dict_get 9 (_get_cart w') = Some 3%Z ∧
  cart_view w' = (Raise (Http404 "Product"), w').
Proof.
  intros w. apply (cart_update_unknown_product 9 3 w); [reflexivity | lia].
Defined.

(** X8. [cart_update] acts on a [POST] only; a [qty] that [int] rejects raises
    [ValueError] with nothing written; a form without [qty] stores the
    quantity 1, whatever was stored before. *)
Theorem cart_update_edges (pid : nat) (qty : QtyField) (w : World) :
  cart_update GET pid qty w = (Redirect Url.cart [], w) ∧
  cart_update POST pid qty_malformed w = (Raise ValueError, w) ∧
  dict_get pid (_get_cart (cart_update POST pid qty_missing w).2) = Some 1%Z.
Proof.
  split_and!; [done | done |].
  unfold cart_update. rewrite decide_False by lia. apply dict_get_set.
Qed.

(** X9. The cart keeps the order in which products were first put in: setting
    or raising the quantity of a product already in the cart leaves the
    order of the entries as it is, and a new product goes last. *)
Theorem cart_order_kept (pid : nat) (qty : Z) (p : Product.t) (w : World) :
  let keys := (_get_cart w).*1 in
  let keys' := if decide (pid ∈ keys) then keys else keys ++ [pid] in
  ((1 ≤ qty)%Z →
   (_get_cart (cart_update POST pid (qty_int qty) w).2).*1 = keys') ∧
  (active (products (db w)) pid = Some p →
   (_get_cart (cart_add pid w).2).*1 = keys').
Proof.
  cbv zeta. split.
  - intros Hq. unfold cart_update. rewrite decide_False by lia.
    cbn [snd]. rewrite _get_cart_save. apply dict_set_keys.
  - intros Hp. rewrite (cart_add_active _ _ _ Hp).
    cbn [snd]. rewrite _get_cart_save. apply dict_set_keys.
Qed.

Lemma cart_order_kept_witness :
  let pA := Product.mk 1 "A" "a" "" 1000 5 true in
  let w := {| db := mkDB {[1 := pA]} [] [];
              session_cart := Some [(1, 2%Z); (7, 1%Z)] |} in
  (_get_cart (cart_update POST 5 (qty_int 4) w).2).*1 = [1; 7; 5] ∧
  (_get_cart (cart_add 1 w).2).*1 = [1; 7].
Proof.
  intros pA w. split.
  - apply (cart_order_kept 5 4 pA w). lia.
  - apply (cart_order_kept 1 4 pA w). reflexivity.
Defined.

(** ** Checkout, whatever its outcome *)

Lemma Order_by_pk_app (pk : nat) (d : DB) (orders' : list Order.t)
    (ps : gmap nat Product.t) (items : list OrderItem.t) :
  is_Some (Order_by_pk pk d) →
  is_Some (Order_by_pk pk
             {| products := ps; orders := orders d ++ orders';
                order_items := items |}).
Proof.
  unfold Order_by_pk. destruct pk as [|i]; [done|]. simpl.
  intros Hi. rewrite lookup_app_l; [done|]. by apply lookup_lt_is_Some.
Qed.

Lemma ordered_items_ok (row : Order.t) (ran : dict) (d : DB) :
  items_ok d →
  resolvable (products d) ran →
  insertable ran →
  items_ok (ordered row ran d).
Proof.
  unfold items_ok, ordered. intros Hold Hres Hq%insertable_nonneg. simpl.
  apply Forall_app. split.
  - eapply Forall_impl; [exact Hold|].
    intros item (Ho & Hp & Hqty). split_and!; [| |done].
    + by apply Order_by_pk_app.
    + simpl. destruct Hp as [p Hp].
      pose proof (sold_lookup ran (products d) (OrderItem.product item) Hq)
        as Hs.
      rewrite Hp in Hs. destruct Hs as (s & -> & _). by eexists.
  - unfold order_lines. apply Forall_fmap, Forall_forall.
    intros [pid qty] Hin. split_and!; simpl.
    + unfold Order_by_pk; simpl. rewrite list_lookup_middle by done.
      by eexists.
    + unfold resolvable in Hres. rewrite Forall_forall in Hres.
      destruct (Hres _ Hin) as [p [Hp _]%active_Some_lookup]. simpl in Hp.
      pose proof (sold_lookup ran (products d) pid Hq) as Hs.
      rewrite Hp in Hs. destruct Hs as (s & -> & _). by eexists.
    + rewrite Forall_forall in Hq. apply (Hq _ Hin).
Qed.

Lemma sold_stock_ok (entries : dict) (ps : gmap nat Product.t) :
  Forall (λ kv, (0 ≤ kv.2)%Z) entries →
  stock_ok ps → stock_ok (sold entries ps).
Proof.
  intros Hq Hok pk p' Hp'.
  pose proof (sold_lookup entries ps pk Hq) as Hs.
  destruct (ps !! pk) as [p|] eqn:Hp; [|congruence].
  destruct Hs as (s & Hs & Hbound). rewrite Hs in Hp'.
  injection Hp' as <-. simpl. apply Hbound. by eapply Hok.
Qed.

(** X12. [checkout] keeps what the schema demands, on every request and whether
    it succeeds or raises: each order item points at an order and a product
    that exist and has a quantity that is not negative, and no stock is
    negative. *)
Theorem checkout_keeps_schema (method : Method) (user : option nat)
    (f : CheckoutForm.t) (w : World) :
  items_ok (db w) →
  stock_ok (products (db w)) →
  items_ok (db (checkout method user f w).2) ∧
  stock_ok (products (db (checkout method user f w).2)).
Proof.
  intros Hitems Hstock.
  destruct (checkout_run method user f w)
    as [->|(u & row & ran & _ & _ & _ & _ & Hres & Hq & ->)]; [done|].
  split; [by apply ordered_items_ok |].
  apply sold_stock_ok; [by apply insertable_nonneg | done].
Qed.

Lemma checkout_keeps_schema_witness :
  let pA := Product.mk 1 "A" "a" "" 1000 5 true in
  let pB := Product.mk 1 "B" "b" "" 250 1 false in
  let w := {| db := mkDB (<[1 := pA]> (<[2 := pB]> ∅)) [] [];
              session_cart := Some [(1, 7%Z); (2, 1%Z)] |} in
  let f := CheckoutForm.mk (Some "Ann") (Some "ann@example.com") (Some "1")
             (Some "Street") (Some "City") (Some "State") (Some "560001") in
  items_ok (db (checkout POST (Some 3) f w).2) ∧
  stock_ok (products (db (checkout POST (Some 3) f w).2)).
Proof.
  intros pA pB w f. apply (checkout_keeps_schema POST (Some 3) f w).
  - constructor.
  - intros pk p Hp. simpl in Hp.
    apply lookup_insert_Some in Hp as [[_ <-]|[_ Hp]]; [simpl; lia|].
    apply lookup_insert_Some in Hp as [[_ <-]|[_ Hp]]; [simpl; lia|].
    by rewrite lookup_empty in Hp.
Defined.

(** X13. What [checkout] never does, on any request and with any outcome: it
    adds at most one order and never alters an order or an order item that
    is already there; it adds no product row and removes none; it changes
    nothing of a product but its stock, which it never raises and never
    takes below 0. *)
Theorem checkout_frame (method : Method) (user : option nat)
    (f : CheckoutForm.t) (w : World) :
  let w' := (checkout method user f w).2 in
  (orders (db w') = orders (db w) ∨
   ∃ row, orders (db w') = orders (db w) ++ [row]) ∧
  order_items (db w) `prefix_of` order_items (db w') ∧
  ∀ pk,
    match products (db w) !! pk with
    | None => products (db w') !! pk = None
    | Some p =>
        ∃ s, products (db w') !! pk = Some (set_stock p s) ∧
             ((0 ≤ Product.stock p)%Z → (0 ≤ s ≤ Product.stock p)%Z)
    end.
Proof.
  cbv zeta.
  destruct (checkout_run method user f w)
    as [->|(u & row & ran & _ & _ & _ & _ & Hres & Hq & ->)].
  - split_and!; [by left | done |].
    intros pk. destruct (products (db w) !! pk) as [p|]; [|done].
    exists (Product.stock p). split; [by destruct p | lia].
  - split_and!; [right; by exists row | by apply prefix_app_r |].
    intros pk. by apply sold_lookup, insertable_nonneg.
Qed.

(** ** Checkout: guards, the order placed, and what comes after *)

(** X10. [checkout] writes only on a [POST] by a logged-in visitor: an anonymous
    visitor is sent to the login page and a [GET] with a cart gets the form
    with the cart count, both with the state untouched. *)
Theorem checkout_guards (method : Method) (user : option nat)
    (f : CheckoutForm.t) (w : World) :
  (user = None → checkout method user f w = (Redirect Url.LOGIN_URL [], w)) ∧
  (∀ u, user = Some u → method = GET → _get_cart w ≠ [] →
     checkout method user f w =
       (Render (checkout_html u (dict_sum_values (_get_cart w))), w)) ∧
  (user = None ∨ method = GET → (checkout method user f w).2 = w).
Proof.
  unfold checkout. split_and!.
  - by intros ->.
  - intros u -> -> Hne. by destruct (_get_cart w).
  - intros [->| ->]; [done|].
    destruct user; [|done]. by destruct (_get_cart w).
Qed.

Lemma checkout_guards_witness :
  let pA := Product.mk 1 "A" "a" "" 1000 5 true in
  let w := {| db := mkDB {[1 := pA]} [] [];
              session_cart := Some [(1, 2%Z)] |} in
  let f := CheckoutForm.mk None None None None None None None in
  checkout POST None f w = (Redirect Url.LOGIN_URL [], w) ∧
  checkout GET (Some 3) f w = (Render (checkout_html 3 2), w).
Proof.
  intros pA w f. split.
  - by apply (checkout_guards POST None f w).
  - by apply (checkout_guards GET (Some 3) f w).
Defined.

(** X11. A [POST] checkout whose form lacks one of the seven contact fields
    altogether fails on the insert of the order with [IntegrityError]; no
    order, no order item and no stock change is written, and the cart is
    kept. *)
Theorem checkout_missing_field (user : nat) (f : CheckoutForm.t) (w : World) :
  _get_cart w ≠ [] →
  (CheckoutForm.full_name f = None ∨ CheckoutForm.email f = None ∨
   CheckoutForm.phone f = None ∨ CheckoutForm.address f = None ∨
   CheckoutForm.city f = None ∨ CheckoutForm.state f = None ∨
   CheckoutForm.pincode f = None) →
  checkout POST (Some user) f w = (Raise IntegrityError, w).
Proof.
  intros Hne Hmiss.
  assert (Order_row user f = None) as Hrow.
  { unfold Order_row.
    destruct (CheckoutForm.full_name f), (CheckoutForm.email f),
      (CheckoutForm.phone f), (CheckoutForm.address f),
      (CheckoutForm.city f), (CheckoutForm.state f),
      (CheckoutForm.pincode f); try done.
    destruct Hmiss as [?|[?|[?|[?|[?|[?|?]]]]]]; done. }
  unfold checkout. destruct (_get_cart w) as [|kv cart]; [done|].
  unfold place_order, mbind, M_bind, Order_create. rewrite Hrow.
  by destruct w.
Qed.

Lemma checkout_missing_field_witness :
  let pA := Product.mk 1 "A" "a" "" 1000 5 true in
  let w := {| db := mkDB {[1 := pA]} [] [];
              session_cart := Some [(1, 2%Z)] |} in
  let f := CheckoutForm.mk (Some "Ann") (Some "ann@example.com") None
             (Some "Street") (Some "City") (Some "State") (Some "560001") in
  checkout POST (Some 3) f w = (Raise IntegrityError, w).
Proof.
  intros pA w f. apply (checkout_missing_field 3 f w); [discriminate|].
  right. right. by left.
Defined.

(** X14. The order id a successful checkout redirects to opens, for the visitor
    who checked out, the order just written: it carries that visitor, the
    submitted contact fields and [paid]; for any other visitor the same id
    gives the 404 of [Order]. *)
Theorem checkout_then_order_success (method : Method) (user : nat)
    (f : CheckoutForm.t) (w : World) (order_id : nat)
    (flash : list (Level * string)) :
  (checkout method (Some user) f w).1 =
    Redirect (Url.order_success order_id) flash →
  let w' := (checkout method (Some user) f w).2 in
  ∃ row,
    Order_row user f = Some row ∧
    Order.user row = Some user ∧ Order.paid row = true ∧
    order_success (Some user) order_id w' =
      (Render (order_success_html row), w') ∧
    ∀ other, other ≠ user →
      order_success (Some other) order_id w' = (Raise (Http404 "Order"), w').
Proof.
  intros Hok.
  apply checkout_success_inv in Hok
    as (u & row & -> & [= <-] & Hrow & Hne & Hres & Hq & -> & Hw').
  cbv zeta. rewrite Hw'. exists row.
  assert (Order.user row = Some user ∧ Order.paid row = true) as [Hu Hpaid].
  { unfold Order_row in Hrow.
    destruct (CheckoutForm.full_name f), (CheckoutForm.email f),
      (CheckoutForm.phone f), (CheckoutForm.address f),
      (CheckoutForm.city f), (CheckoutForm.state f),
      (CheckoutForm.pincode f); try done.
    by injection Hrow as <-. }
  assert (Order_by_pk (S (length (orders (db w))))
            (ordered row (_get_cart w) (db w)) = Some row) as Hget.
  { unfold Order_by_pk, ordered; simpl. by rewrite list_lookup_middle. }
  split_and!; try done.
  - unfold order_success, get_Order_or_404. cbn [db]. rewrite Hget.
    by rewrite decide_True.
  - intros other Hother.
    unfold order_success, get_Order_or_404. cbn [db]. rewrite Hget.
    rewrite decide_False; [done|]. rewrite Hu. congruence.
Qed.

Lemma checkout_then_order_success_witness :
  let pA := Product.mk 1 "A" "a" "" 1000 5 true in
  let w := {| db := mkDB {[1 := pA]} [] [];
              session_cart := Some [(1, 2%Z)] |} in
  let f := CheckoutForm.mk (Some "Ann") (Some "ann@example.com") (Some "1")
             (Some "Street") (Some "City") (Some "State") (Some "560001") in
  let w' := (checkout POST (Some 3) f w).2 in
  ∃ row,
    Order_row 3 f = Some row ∧
    Order.user row = Some 3 ∧ Order.paid row = true ∧
    order_success (Some 3) 1 w' = (Render (order_success_html row), w') ∧
    ∀ other, other ≠ 3 →
      order_success (Some other) 1 w' = (Raise (Http404 "Order"), w').
Proof.
  intros pA w f.
  apply (checkout_then_order_success POST 3 f w 1 []). reflexivity.
Defined.

Lemma order_lines_subtotals (order_id : nat) (ps : gmap nat Product.t)
    (entries : dict) :
  OrderItem.subtotal <$> order_lines order_id ps entries =
    cart_subtotals ps entries.
Proof.
  unfold cart_subtotals, order_lines. by rewrite <- list_fmap_compose.
Qed.

Lemma Order_items_fresh (d : DB) (items : list OrderItem.t) :
  Forall (item_ok d) items →
  filter (λ item, OrderItem.order item = S (length (orders d))) items = [].
Proof.
  induction items as [|item items IH]; intros Hok; [done|].
  apply Forall_cons in Hok as [(Ho & _ & _) Hok].
  rewrite filter_cons_False; [auto|].
  intros Heq. rewrite Heq in Ho. unfold Order_by_pk in Ho.
  apply lookup_lt_is_Some in Ho. lia.
Qed.

Lemma Order_items_own (order_id : nat) (ps : gmap nat Product.t)
    (entries : dict) :
  filter (λ item, OrderItem.order item = order_id)
    (order_lines order_id ps entries) = order_lines order_id ps entries.
Proof.
  induction entries as [|kv entries IH]; [done|].
  unfold order_lines in *. csimpl. rewrite filter_cons_True by done.
  by rewrite IH.
Qed.

(** X15. On a store whose order items all point at existing orders, the
    items of the order a successful checkout creates are one line per cart
    entry; and when no subtotal or running total of the cart goes beyond the
    28 digits that [Decimal] keeps, the total of that order is the sum over
    the cart entries of quantity times the price of the product at the
    checkout, which is the total [cart_view] showed for the cart. *)
Theorem checkout_order_total (method : Method) (user : option nat)
    (f : CheckoutForm.t) (w : World) (order_id : nat)
    (flash : list (Level * string)) :
  items_ok (db w) →
  exact_amounts (products (db w)) (_get_cart w) →
  (checkout method user f w).1 = Redirect (Url.order_success order_id) flash →
  let w' := (checkout method user f w).2 in
  Order_items order_id (db w') =
    order_lines order_id (products (db w)) (_get_cart w) ∧
  Order_total_amount order_id (db w') =
    cart_amount (products (db w)) (_get_cart w) ∧
  ∃ items,
    (cart_view w).1 =
      Render (cart_html items (Order_total_amount order_id (db w'))
                (dict_sum_values (_get_cart w))).
Proof.
  intros Hitems [Hsub Hrun] Hok.
  apply checkout_success_inv in Hok
    as (u & row & -> & -> & Hrow & Hne & Hres & Hq & -> & Hw').
  cbv zeta. rewrite Hw'.
  assert (Order_items (S (length (orders (db w))))
            (ordered row (_get_cart w) (db w)) =
          order_lines (S (length (orders (db w)))) (products (db w))
            (_get_cart w)) as Hown.
  { unfold Order_items, ordered; simpl.
    rewrite filter_app, Order_items_fresh by done. apply Order_items_own. }
  assert (Order_total_amount (S (length (orders (db w))))
            (ordered row (_get_cart w) (db w)) =
          cart_amount (products (db w)) (_get_cart w)) as Htotal.
  { unfold Order_total_amount. rewrite Hown, order_lines_subtotals.
    by rewrite cart_subtotals_exact. }
  split_and!; [done | done |].
  destruct (cart_view_loop_resolvable _ _ Hres [] 0%Z) as (lines & Heq & _).
  exists lines. unfold cart_view. rewrite Heq. cbn [db fst].
  rewrite Htotal. by rewrite cart_subtotals_exact.
Qed.

Lemma checkout_order_total_witness :
  let pA := Product.mk 1 "A" "a" "" 1000 5 true in
  let pB := Product.mk 1 "B" "b" "" 250 9 true in
  let w := {| db := mkDB (<[1 := pA]> (<[2 := pB]> ∅)) [] [];
              session_cart := Some [(1, 2%Z); (2, 3%Z)] |} in
  let f := CheckoutForm.mk (Some "Ann") (Some "ann@example.com") (Some "1")
             (Some "Street") (Some "City") (Some "State") (Some "560001") in
  let w' := (checkout POST (Some 3) f w).2 in
  Order_items 1 (db w') = order_lines 1 (products (db w)) (_get_cart w) ∧
  Order_total_amount 1 (db w') = cart_amount (products (db w)) (_get_cart w) ∧
  ∃ items,
    (cart_view w).1 =
      Render (cart_html items (Order_total_amount 1 (db w'))
                (dict_sum_values (_get_cart w))).
Proof.
  intros pA pB w f.
  apply (checkout_order_total POST (Some 3) f w 1 []).
  - constructor.
  - split.
    + repeat constructor; vm_compute; reflexivity.
    + intros [|[|[|n]]]; vm_compute; reflexivity.
  - reflexivity.
Defined.

(** X16. A successful checkout has cleared the cart, so a checkout sent again
    right after it, by whatever method and with whatever form, is answered
    with the "cart is empty" error and writes nothing: no second order. *)
Theorem checkout_not_repeated (method method' : Method) (user : nat)
    (f f' : CheckoutForm.t) (w : World) (order_id : nat)
    (flash : list (Level * string)) :
  (checkout method (Some user) f w).1 =
    Redirect (Url.order_success order_id) flash →
  let w' := (checkout method (Some user) f w).2 in
  checkout method' (Some user) f' w' =
    (Redirect Url.product_list [(level_error, "Your cart is empty.")], w').
Proof.
  intros Hok.
  apply checkout_success_inv in Hok as (u & row & _ & _ & _ & _ & _ & _ & _ & Hw').
  cbv zeta. by rewrite Hw'.
Qed.

Lemma checkout_not_repeated_witness :
  let pA := Product.mk 1 "A" "a" "" 1000 5 true in
  let w := {| db := mkDB {[1 := pA]} [] [];
              session_cart := Some [(1, 2%Z)] |} in
  let f := CheckoutForm.mk (Some "Ann") (Some "ann@example.com") (Some "1")
             (Some "Street") (Some "City") (Some "State") (Some "560001") in
  let w' := (checkout POST (Some 3) f w).2 in
  checkout POST (Some 3) f w' =
    (Redirect Url.product_list [(level_error, "Your cart is empty.")], w').
Proof.
  intros pA w f.
  apply (checkout_not_repeated POST POST 3 f f w 1 []). reflexivity.
Defined.

(** X17. A checkout that stopped at a stale entry, after entries in
    quantities from 1 to the largest integer the database stores, has kept
    the cart, so the same request sent again stops at the same entry, and
    what it wrote before the stop is written once more: the store holds two
    orders for the request, and the stock of the entries ahead of the stale
    one has been lowered twice. *)
Theorem checkout_stale_retry (user : nat) (f : CheckoutForm.t) (row : Order.t)
    (w : World) (pre post : dict) (pid : nat) (qty : Z) :
  Order_row user f = Some row →
  _get_cart w = pre ++ (pid, qty) :: post →
  resolvable (products (db w)) pre →
  qty_ok pre →
  qty_fits pre →
  active (products (db w)) pid = None →
  let w1 := (checkout POST (Some user) f w).2 in
  let r2 := checkout POST (Some user) f w1 in
  r2.1 = Raise (Http404 "Product") ∧
  orders (db r2.2) = orders (db w) ++ [row; row] ∧
  products (db r2.2) = sold pre (sold pre (products (db w))) ∧
  session_cart r2.2 = session_cart w.
Proof.
  intros Hrow Hcart Hres Hq Hfit Hstale. cbv zeta.
  pose proof (qty_ok_insertable _ Hq Hfit) as Hins.
  rewrite (checkout_stops_at_stale user f row w pre post pid qty) by done.
  cbn [snd].
  set (w1 := {| db := ordered row pre (db w); session_cart := session_cart w |}).
  rewrite (checkout_stops_at_stale user f row w1 pre post pid qty); try done.
  - simpl. split_and!; try done. by rewrite <- app_assoc.
  - simpl. by apply resolvable_sold.
  - simpl. destruct (active (sold pre (products (db w))) pid) as [p|] eqn:Hp;
      [|done].
    assert (is_Some (active (products (db w)) pid)) as [p' Hp'].
    { apply (is_Some_active_sold pre). by exists p. }
    congruence.
Qed.

Lemma checkout_stale_retry_witness :
  let pA := Product.mk 1 "A" "a" "" 1000 5 true in
  let pB := Product.mk 1 "B" "b" "" 250 1 false in
  let w := {| db := mkDB (<[1 := pA]> (<[2 := pB]> ∅)) [] [];
              session_cart := Some [(1, 2%Z); (2, 1%Z)] |} in
  let f := CheckoutForm.mk (Some "Ann") (Some "ann@example.com") (Some "1")
             (Some "Street") (Some "City") (Some "State") (Some "560001") in
  let row := Order.mk (Some 3) "Ann" "ann@example.com" "1" "Street" "City"
               "State" "560001" true in
  let w1 := (checkout POST (Some 3) f w).2 in
  let r2 := checkout POST (Some 3) f w1 in
  r2.1 = Raise (Http404 "Product") ∧
  orders (db r2.2) = orders (db w) ++ [row; row] ∧
  products (db r2.2) = sold [(1, 2%Z)] (sold [(1, 2%Z)] (products (db w))) ∧
  session_cart r2.2 = session_cart w.
Proof.
  intros pA pB w f row.
  apply (checkout_stale_retry 3 f row w [(1, 2%Z)] [] 2 1%Z).
  - reflexivity.
  - reflexivity.
  - repeat constructor. by eexists.
  - repeat constructor. simpl. lia.
  - repeat constructor. by vm_compute.
  - reflexivity.
Defined.

(** ** The auth views *)

Lemma authenticate_Some (check_password : string → string → bool)
    (username password : option string) (users : gmap string User.t)
    (u : string) :
  authenticate check_password username password users = Some u →
  ∃ pw row,
    username = Some u ∧ password = Some pw ∧ users !! u = Some row ∧
    check_password pw (User.password row) = true ∧
    User.is_active row = true.
Proof.
  unfold authenticate.
  destruct username as [name|]; [|done]. destruct password as [pw|]; [|done].
  destruct (users !! name) as [row|] eqn:Hrow; [|done].
  destruct (check_password pw (User.password row)) eqn:Hpw; [|done].
  destruct (User.is_active row) eqn:Hact; [|done].
  simpl. intros [= <-]. by exists pw, row.
Qed.

Lemma authenticate_ok (check_password : string → string → bool)
    (name pw : string) (row : User.t) (users : gmap string User.t) :
  users !! name = Some row →
  check_password pw (User.password row) = true →
  User.is_active row = true →
  authenticate check_password (Some name) (Some pw) users = Some name.
Proof. intros Hrow Hpw Hact. unfold authenticate. by rewrite Hrow, Hpw, Hact. Qed.

Lemma User_filter_email_elem (email : string) (users : gmap string User.t)
    (name : string) (row : User.t) :
  (name, row) ∈ User_filter_email email users ↔
  users !! name = Some row ∧ User.email row = email.
Proof.
  unfold User_filter_email. rewrite list_elem_of_filter, elem_of_map_to_list.
  simpl. tauto.
Qed.

(** X19. [login_view] logs a visitor in only as an account that is active and
    whose stored password the submitted one checks against, and only when
    the submitted identifier is that account's username or its email
    address. *)
Theorem login_requires_valid_account
    (check_password : string → string → bool) (method : Method)
    (username password : option string) (users : gmap string User.t)
    (r : Response) (u : string) :
  login_view check_password method None username password users = (r, Some u) →
  ∃ ident pw row,
    method = POST ∧ username = Some ident ∧ password = Some pw ∧
    users !! u = Some row ∧
    check_password pw (User.password row) = true ∧
    User.is_active row = true ∧
    (ident = u ∨ User.email row = ident) ∧
    r = Redirect Url.product_list [].
Proof.
  unfold login_view. destruct method; [done|].
  destruct (authenticate check_password username password users) as [u'|]
    eqn:Hauth.
  - intros [= <- <-].
    apply authenticate_Some in Hauth as (pw & row & -> & -> & Hrow & Hpw & Hact).
    exists u', pw, row. split_and!; try done. by left.
  - unfold User_get_email. destruct username as [ident|]; [|done].
    destruct (User_filter_email ident users) as [|[name row'] [|]] eqn:Hget;
      [done | | done].
    cbn [fst].
    destruct (authenticate check_password (Some name) password users) as [u'|]
      eqn:Hauth2; [|done].
    intros [= <- <-].
    apply authenticate_Some in Hauth2
      as (pw & row & [= <-] & -> & Hrow & Hpw & Hact).
    assert ((name, row') ∈ User_filter_email ident users) as Hin
      by (rewrite Hget; left).
    apply User_filter_email_elem in Hin as [Hrow' Hemail].
    assert (row' = row) as -> by congruence.
    exists ident, pw, row. split_and!; try done. by right.
Qed.

Lemma login_requires_valid_account_witness :
  let check_password := λ raw encoded : string, String.eqb ("h:" +:+ raw) encoded in
  let users : gmap string User.t :=
    {["ann" := User.mk "ann@example.com" "h:s3cret" true]} in
  ∃ ident pw row,
    POST = POST ∧ Some "ann@example.com" = Some ident ∧
    Some "s3cret" = Some pw ∧
    users !! "ann" = Some row ∧
    check_password pw (User.password row) = true ∧
    User.is_active row = true ∧
    (ident = "ann" ∨ User.email row = ident) ∧
    Redirect Url.product_list [] = Redirect Url.product_list [].
Proof.
  intros check_password users.
  apply (login_requires_valid_account check_password POST
           (Some "ann@example.com") (Some "s3cret") users).
  vm_compute. reflexivity.
Defined.

Lemma User_filter_email_insert_fresh (users : gmap string User.t)
    (name : string) (row : User.t) :
  users !! name = None →
  User_filter_email (User.email row) users = [] →
  User_filter_email (User.email row) (<[name := row]> users) = [(name, row)].
Proof.
  intros Hfree Hnone. unfold User_filter_email in *.
  apply Permutation_singleton_r.
  rewrite map_to_list_insert by done.
  rewrite filter_cons_True by done. by rewrite Hnone.
Qed.

(** X21. Registration and login fit together: with a hasher whose check accepts
    the password it encoded, an account just registered (its stripped
    username not empty and free both as typed and in its normalised form,
    its address not registered) logs in with the username it is stored
    under, which is the stripped one normalised, and also with its email
    address written stripped and in lower case, as long as nobody has that
    address as a username. *)
Theorem register_then_login {text : Text}
    (make_password : option string → string)
    (check_password : string → string → bool)
    (users : gmap string User.t) (u e pw : string) :
  check_password pw (make_password (Some pw)) = true →
  str_strip u ≠ "" →
  users !! str_strip u = None →
  users !! normalize_username (str_strip u) = None →
  User_filter_email (str_lower (str_strip e)) users = [] →
  users !! str_lower (str_strip e) = None →
  let users' :=
    (register_view make_password POST None
       (RegisterForm.mk (Some u) (Some e) (Some pw) (Some pw)) users).2 in
  let name := normalize_username (str_strip u) in
  login_view check_password POST None (Some name) (Some pw) users' =
    (Redirect Url.product_list [], Some name) ∧
  login_view check_password POST None (Some (str_lower (str_strip e)))
    (Some pw) users' =
    (Redirect Url.product_list [], Some name).
Proof.
  intros Hhash Hu Hfree Hstored Hemail Hnoname. cbv zeta.
  rewrite register_view_created by done. cbn [snd].
  set (name := normalize_username (str_strip u)) in *.
  set (row := {| User.email := str_lower (str_strip e);
                 User.password := make_password (Some pw);
                 User.is_active := true |}).
  assert (authenticate check_password (Some name) (Some pw)
            (<[name := row]> users) = Some name) as Hauth.
  { apply (authenticate_ok _ _ _ row); [apply lookup_insert_eq | done | done]. }
  split.
  - unfold login_view. by rewrite Hauth.
  - destruct (decide (str_lower (str_strip e) = name)) as [Heq|Hne].
    + rewrite Heq. unfold login_view. by rewrite Hauth.
    + unfold login_view.
      assert (authenticate check_password (Some (str_lower (str_strip e)))
                (Some pw) (<[name := row]> users) = None) as ->.
      { unfold authenticate. rewrite lookup_insert_ne by done.
        by rewrite Hnoname. }
      pose proof (User_filter_email_insert_fresh users name row
                    Hstored Hemail) as Hone.
      unfold User_get_email. cbn [User.email row] in Hone. rewrite Hone.
      cbn [fst]. by rewrite Hauth.
Qed.

Lemma register_then_login_witness :
  let make_password := λ p : option string, "h:" +:+ default "!" p in
  let check_password := λ raw encoded : string, String.eqb ("h:" +:+ raw) encoded in
  let users' :=
    (register_view make_password POST None
       (RegisterForm.mk (Some " ann ") (Some "Ann@Example.com")
          (Some "s3cret") (Some "s3cret")) ∅).2 in
  login_view check_password POST None (Some "ann") (Some "s3cret") users' =
    (Redirect Url.product_list [], Some "ann") ∧
  login_view check_password POST None (Some "ann@example.com")
    (Some "s3cret") users' = (Redirect Url.product_list [], Some "ann").
Proof.
  intros make_password check_password.
  apply (register_then_login (text := ascii_text) make_password
           check_password ∅ " ann " "Ann@Example.com" "s3cret");
    try reflexivity.
  discriminate.
Defined.

(** X22. [register_view] never changes or removes an account that exists; it
    writes at most one new account, under the stripped username in its
    normalised form, active, with the address stripped and in lower case,
    and only when it answers with the redirect to the login page. *)
Theorem register_view_only_adds {text : Text}
    (make_password : option string → string)
    (method : Method) (request_user : option string) (f : RegisterForm.t)
    (users : gmap string User.t) :
  let r := register_view make_password method request_user f users in
  (∀ name row, users !! name = Some row → r.2 !! name = Some row) ∧
  (r.2 = users ∨
   ∃ username email,
     RegisterForm.username f = Some username ∧
     RegisterForm.email f = Some email ∧
     users !! str_strip username = None ∧
     users !! normalize_username (str_strip username) = None ∧
     r = (Redirect Url.login
            [(level_success, "Registration successful. Please log in.")],
          <[normalize_username (str_strip username) :=
              {| User.email := str_lower (str_strip email);
                 User.password := make_password (RegisterForm.password f);
                 User.is_active := true |}]> users)).
Proof.
  cbv zeta. unfold register_view.
  destruct request_user; [split; [done | by left]|].
  destruct method; [split; [done | by left]|].
  destruct (RegisterForm.username f) as [username|]; [|split; [done | by left]].
  destruct (RegisterForm.email f) as [email|]; [|split; [done | by left]].
  case_decide; [split; [done | by left]|].
  case_decide as Htaken; [split; [done | by left]|].
  case_decide; [split; [done | by left]|].
  unfold create_user. case_decide; [split; [done | by left]|]. cbv zeta.
  rewrite normalize_email_lower_strip.
  destruct (users !! normalize_username (str_strip username)) eqn:Hfree;
    [split; [done | by left]|].
  simpl. split.
  - intros name row Hrow. rewrite lookup_insert_ne; [done|]. congruence.
  - right. exists username, email. split_and!; try done.
    destruct (users !! str_strip username) eqn:Hu; [|done].
    exfalso. apply Htaken. by eexists.
Qed.

(** X23. The refusals of [register_view] for an anonymous [POST], in the order
    the view tests them: passwords that differ are refused whatever the
    other fields say; with equal passwords a stripped username that is taken
    is refused whatever the address; then an address that is registered in
    its stripped lower-case form is refused.  None of them writes. *)
Theorem register_view_refusals {text : Text}
    (make_password : option string → string)
    (username email : string) (password cp : option string)
    (users : gmap string User.t) :
  let r := register_view make_password POST None
             (RegisterForm.mk (Some username) (Some email) password cp) users in
  (password ≠ cp →
   r = (Render (auth_register_html (Some "Passwords do not match")), users)) ∧
  (password = cp → is_Some (users !! str_strip username) →
   r = (Render (auth_register_html (Some "Username already taken")), users)) ∧
  (password = cp → users !! str_strip username = None →
   User_filter_email (str_lower (str_strip email)) users ≠ [] →
   r = (Render (auth_register_html (Some "Email already registered")), users)).
Proof.
  cbv zeta. unfold register_view; simpl. split_and!.
  - intros Hne. by rewrite decide_True.
  - intros -> Htaken. rewrite decide_False by (intros H; by apply H).
    by rewrite decide_True.
  - intros -> Hfree Hemail. rewrite decide_False by (intros H; by apply H).
    rewrite decide_False by (rewrite Hfree; by intros [? ?]).
    by rewrite decide_True.
Qed.

Lemma register_view_refusals_witness :
  let make_password := λ p : option string, "h:" +:+ default "!" p in
  let users : gmap string User.t :=
    {["ann" := User.mk "ann@example.com" "h:s3cret" true]} in
  register_view make_password POST None
    (RegisterForm.mk (Some "ann") (Some "ann@example.com") (Some "a")
       (Some "b")) users =
    (Render (auth_register_html (Some "Passwords do not match")), users) ∧
  register_view make_password POST None
    (RegisterForm.mk (Some "ann ") (Some "ann@example.com") (Some "a")
       (Some "a")) users =
    (Render (auth_register_html (Some "Username already taken")), users) ∧
  register_view make_password POST None
    (RegisterForm.mk (Some "bob") (Some "ANN@example.com") (Some "a")
       (Some "a")) users =
    (Render (auth_register_html (Some "Email already registered")), users).
Proof.
  intros make_password users. split_and!.
  - apply (register_view_refusals (text := ascii_text) make_password "ann"
             "ann@example.com" (Some "a") (Some "b") users). discriminate.
  - apply (register_view_refusals (text := ascii_text) make_password "ann "
             "ann@example.com" (Some "a") (Some "a") users); [reflexivity|].
    by eexists.
  - apply (register_view_refusals (text := ascii_text) make_password "bob"
             "ANN@example.com" (Some "a") (Some "a") users);
      [reflexivity | reflexivity|].
    vm_compute. discriminate.
Defined.

(** X24. Where [register_view] raises instead of refusing, on an anonymous
    [POST]: a form without the username or the email field raises
    [AttributeError]; with equal passwords and a fresh address, a username
    of nothing but white space passes the three tests and is stopped only
    by [create_user], with [ValueError]; and a username that is free as
    typed while its normalised form is taken passes them too and is stopped
    by the unique index, with [IntegrityError].  Nothing is written. *)
Theorem register_view_raises {text : Text}
    (make_password : option string → string)
    (f : RegisterForm.t) (users : gmap string User.t) :
  (RegisterForm.username f = None ∨ RegisterForm.email f = None →
   register_view make_password POST None f users =
     (Raise AttributeError, users)) ∧
  (∀ username email,
     RegisterForm.username f = Some username →
     RegisterForm.email f = Some email →
     RegisterForm.password f = RegisterForm.confirm_password f →
     str_strip username = "" →
     users !! "" = None →
     User_filter_email (str_lower (str_strip email)) users = [] →
     register_view make_password POST None f users = (Raise ValueError, users)) ∧
  (∀ username email,
     RegisterForm.username f = Some username →
     RegisterForm.email f = Some email →
     RegisterForm.password f = RegisterForm.confirm_password f →
     str_strip username ≠ "" →
     users !! str_strip username = None →
     is_Some (users !! normalize_username (str_strip username)) →
     User_filter_email (str_lower (str_strip email)) users = [] →
     register_view make_password POST None f users =
       (Raise IntegrityError, users)).
Proof.
  unfold register_view. split_and!.
  - intros [-> | ->]; [done|]. by destruct (RegisterForm.username f).
  - intros username email -> -> Hpw Hblank Hfree Hemail.
    rewrite decide_False by (intros H; by apply H).
    rewrite Hblank.
    rewrite decide_False by (rewrite Hfree; by intros [? ?]).
    rewrite decide_False by (intros H; by apply H).
    unfold create_user. by rewrite decide_True.
  - intros username email -> -> Hpw Hname Hfree [row Hstored] Hemail.
    rewrite decide_False by (intros H; by apply H).
    rewrite decide_False by (rewrite Hfree; by intros [? ?]).
    rewrite decide_False by (intros H; by apply H).
    unfold create_user. rewrite decide_False by done. cbv zeta.
    by rewrite Hstored.
Qed.

Lemma register_view_raises_witness :
  let make_password := λ p : option string, "h:" +:+ default "!" p in
  let fix_ : string :=
    String "239" (String "172" (String "129" (String "x" EmptyString))) in
  let users : gmap string User.t :=
    {["fix" := User.mk "fix@example.com" "h:s3cret" true]} in
  register_view make_password POST None
    (RegisterForm.mk None (Some "ann@example.com") (Some "a") (Some "a")) ∅ =
    (Raise AttributeError, ∅) ∧
  register_view make_password POST None
    (RegisterForm.mk (Some "   ") (Some "ann@example.com") (Some "a")
       (Some "a")) ∅ = (Raise ValueError, ∅) ∧
  register_view make_password POST None
    (RegisterForm.mk (Some fix_) (Some "ann@example.com") (Some "a")
       (Some "a")) users = (Raise IntegrityError, users).
Proof.
  intros make_password fix_ users. split_and!.
  - apply (proj1 (register_view_raises (text := ascii_text) make_password
                    (RegisterForm.mk None (Some "ann@example.com") (Some "a")
                       (Some "a")) ∅)). by left.
  - apply (proj1 (proj2 (register_view_raises (text := ascii_text)
                           make_password
                           (RegisterForm.mk (Some "   ")
                              (Some "ann@example.com") (Some "a") (Some "a"))
                           ∅)) "   " "ann@example.com");
      reflexivity.
  - apply (proj2 (proj2 (register_view_raises (text := ascii_text)
                           make_password
                           (RegisterForm.mk (Some fix_)
                              (Some "ann@example.com") (Some "a") (Some "a"))
                           users)) fix_ "ann@example.com");
      try reflexivity.
    + discriminate.
    + by eexists.
Defined.

Lemma emails_unique_empty : emails_unique ∅.
Proof.
  intros e. unfold User_filter_email. rewrite map_to_list_empty. simpl. lia.
Qed.

Lemma emails_unique_singleton (name : string) (row : User.t) :
  emails_unique {[name := row]}.
Proof.
  intros e. unfold User_filter_email. rewrite map_to_list_singleton.
  rewrite filter_cons. case_decide; simpl; lia.
Qed.

Lemma register_view_emails_unique_witness :
  let make_password := λ p : option string, "h:" +:+ default "!" p in
  emails_unique
    (register_view make_password POST None
       (RegisterForm.mk (Some "ann") (Some "Ann@Example.com") (Some "a")
          (Some "a")) ∅).2.
Proof.
  intros make_password.
  apply (register_view_emails_unique (text := ascii_text) make_password
           POST None
           (RegisterForm.mk (Some "ann") (Some "Ann@Example.com") (Some "a")
              (Some "a")) ∅).
  apply emails_unique_empty.
Defined.

Lemma login_failure_generic_witness :
  let check_password := λ raw encoded : string, String.eqb ("h:" +:+ raw) encoded in
  let users : gmap string User.t :=
    {["ann" := User.mk "ann@example.com" "h:s3cret" true]} in
  let r := login_view check_password POST None (Some "ann@example.com")
             (Some "guess") users in
  (∃ u, r = (Redirect Url.product_list [], Some u)) ∨
  r = (Render (auth_login_html (Some "Invalid credentials")), None).
Proof.
  intros check_password users.
  apply (login_failure_generic check_password users (Some "ann@example.com")
           (Some "guess")).
  apply emails_unique_singleton.
Defined.

(** ** The catalog *)

Lemma startswith_spec (needle hay : string) :
  startswith needle hay = true ↔ ∃ post, hay = needle +:+ post.
Proof.
  revert hay. induction needle as [|a needle IH]; intros hay; simpl.
  - split; [intros _; by exists hay | done].
  - destruct hay as [|b hay].
    + split; [done | intros [post Hpost]; discriminate].
    + destruct (decide (a = b)) as [->|Hne].
      * rewrite IH. split; intros [post Hpost]; exists post.
        -- by rewrite Hpost.
        -- by injection Hpost.
      * split; [done | intros [post [= ? _]]; done].
Qed.

Lemma contains_unfold (needle hay : string) :
  contains needle hay =
    startswith needle hay ||
    match hay with
    | EmptyString => false
    | String _ hay' => contains needle hay'
    end.
Proof. by destruct hay. Qed.

Lemma contains_spec (needle hay : string) :
  contains needle hay = true ↔ ∃ pre post, hay = pre +:+ needle +:+ post.
Proof.
  split.
  - induction hay as [|c hay IH]; rewrite contains_unfold;
      intros [Hs|Hc]%orb_true_iff.
    + apply startswith_spec in Hs as [post ->]. by exists "", post.
    + done.
    + apply startswith_spec in Hs as [post ->]. by exists "", post.
    + destruct (IH Hc) as (pre & post & ->). by exists (String c pre), post.
  - intros (pre & post & ->). induction pre as [|c pre IH].
    + rewrite contains_unfold. apply orb_true_iff. left.
      apply startswith_spec. by exists post.
    + rewrite contains_unfold. apply orb_true_iff. right. exact IH.
Qed.

(** The search test, in words: the query occurs, letter case aside, inside
    the name or inside the description. *)
Lemma matches_spec (q : string) (p : Product.t) :
  matches q p ↔
  ∃ pre post,
    lower (Product.name p) = pre +:+ lower q +:+ post ∨
    lower (Product.description p) = pre +:+ lower q +:+ post.
Proof.
  unfold matches, icontains. rewrite !contains_spec. split.
  - intros [(pre & post & H)|(pre & post & H)]; exists pre, post; auto.
  - intros (pre & post & [H|H]); [left | right]; by exists pre, post.
Qed.

#[export] Instance by_price_total : Total by_price.
Proof. intros a b. unfold by_price. lia. Qed.

#[export] Instance by_price_trans : Transitive by_price.
Proof. intros a b c. unfold by_price. lia. Qed.

#[export] Instance by_price_desc_total : Total by_price_desc.
Proof. intros a b. unfold by_price_desc. lia. Qed.

#[export] Instance by_price_desc_trans : Transitive by_price_desc.
Proof. intros a b c. unfold by_price_desc. lia. Qed.

#[export] Instance by_newest_total (created_at : nat → Z)
    : Total (by_newest created_at).
Proof. intros a b. unfold by_newest. lia. Qed.

#[export] Instance by_newest_trans (created_at : nat → Z)
    : Transitive (by_newest created_at).
Proof. intros a b c. unfold by_newest. lia. Qed.

Lemma Category_get_slug_Found (slug : string) (categories : gmap nat Category.t)
    (c : nat * Category.t) :
  Category_get_slug slug categories = Found c →
  categories !! c.1 = Some c.2 ∧ Category.slug c.2 = slug.
Proof.
  unfold Category_get_slug.
  destruct (filter _ (map_to_list categories)) as [|c' [|]] eqn:Hf; try done.
  intros [= <-].
  assert (c' ∈ filter (λ c, Category.slug c.2 = slug) (map_to_list categories))
    as Hin by (rewrite Hf; left).
  apply list_elem_of_filter in Hin as [Hslug Hin]. destruct c' as [pk c'].
  by apply elem_of_map_to_list in Hin.
Qed.

(** X26. What [product_list] lists: exactly the rows of the product table that
    are active, belong to the category of the URL when there is one, and,
    when a search text is given, have it, letter case aside, inside their
    name or description; the sort option changes nothing of that.  The
    current category is the one whose slug is in the URL. *)
Theorem product_list_lists (categories : gmap nat Category.t)
    (created_at : nat → Z) (slug q sort : option string) (w : World)
    (ctx : ProductList.t) :
  product_list categories created_at slug q sort w = inr ctx →
  (∀ c, ProductList.current_category ctx = Some c →
        slug = Some (Category.slug c.2) ∧ categories !! c.1 = Some c.2) ∧
  (ProductList.current_category ctx = None → slug = None ∨ slug = Some "") ∧
  ∀ pk p,
    (pk, p) ∈ ProductList.products ctx ↔
    products (db w) !! pk = Some p ∧
    Product.is_active p = true ∧
    (∀ c, ProductList.current_category ctx = Some c →
          Product.category p = c.1) ∧
    (∀ text, q = Some text → text ≠ "" →
       ∃ pre post,
         lower (Product.name p) = pre +:+ lower text +:+ post ∨
         lower (Product.description p) = pre +:+ lower text +:+ post).
Proof.
  unfold product_list.
  set (base := filter (λ r, Product.is_active r.2 = true)
                 (map_to_list (products (db w)))).
  assert (∀ pk p, (pk, p) ∈ base ↔
            products (db w) !! pk = Some p ∧ Product.is_active p = true)
    as Hbase.
  { intros pk p. unfold base.
    rewrite list_elem_of_filter, elem_of_map_to_list. simpl. tauto. }
  assert (∀ (cur : option (nat * Category.t)) (l : list (nat * Product.t)) ctx,
    (∀ pk p, (pk, p) ∈ l ↔
       products (db w) !! pk = Some p ∧ Product.is_active p = true ∧
       ∀ c, cur = Some c → Product.category p = c.1) →
    inr {| ProductList.categories :=
             merge_sort by_name (map_to_list categories);
           ProductList.products :=
             (let l' := match q with
                        | None | Some EmptyString => l
                        | Some q => filter (λ r, matches q r.2) l
                        end in
              if decide (sort = Some "price_asc") then merge_sort by_price l'
              else if decide (sort = Some "price_desc")
                   then merge_sort by_price_desc l'
              else if decide (sort = Some "new")
                   then merge_sort (by_newest created_at) l'
              else l');
           ProductList.current_category := cur;
           ProductList.q := default "" q;
           ProductList.sort := default "" sort;
           ProductList.cart_count := dict_sum_values (_get_cart w) |}
      = (inr ctx : Exn + ProductList.t) →
    ProductList.current_category ctx = cur ∧
    ∀ pk p,
      (pk, p) ∈ ProductList.products ctx ↔
      products (db w) !! pk = Some p ∧ Product.is_active p = true ∧
      (∀ c, cur = Some c → Product.category p = c.1) ∧
      (∀ text, q = Some text → text ≠ "" →
         ∃ pre post,
           lower (Product.name p) = pre +:+ lower text +:+ post ∨
           lower (Product.description p) = pre +:+ lower text +:+ post))
    as Hrest.
  { intros cur l ctx' Hl [= <-]. cbn [ProductList.current_category
      ProductList.products]. split; [done|]. intros pk p.
    assert ((pk, p) ∈
              (match q with
               | None | Some EmptyString => l
               | Some q => filter (λ r, matches q r.2) l
               end) ↔
            (pk, p) ∈ l ∧
            ∀ text, q = Some text → text ≠ "" →
              ∃ pre post,
                lower (Product.name p) = pre +:+ lower text +:+ post ∨
                lower (Product.description p) = pre +:+ lower text +:+ post)
      as Hq.
    { destruct q as [[|a text]|].
      - split; [intros Hin; split; [done|]; by intros text [= <-] | tauto].
      - rewrite list_elem_of_filter. cbn [snd]. rewrite matches_spec.
        split.
        + intros [Hm Hin]. split; [done|]. by intros text' [= <-] _.
        + intros [Hin Hm]. split; [by apply Hm | done].
      - split; [intros Hin; split; [done | done] | tauto]. }
    cbv zeta. repeat case_decide; rewrite ?merge_sort_Permutation, Hq, Hl;
      tauto. }
  destruct slug as [[|a slug]|].
  - intros Hctx. destruct (Hrest None base ctx) as [Hcur Hmem]; [|done|].
    { intros pk p. rewrite Hbase. split; [intros []; by split_and! | tauto]. }
    rewrite Hcur. split_and!; [done | by right |]. intros pk p.
    rewrite Hmem. tauto.
  - destruct (Category_get_slug (String a slug) categories) as [|c|] eqn:Hget;
      [done | | done].
    apply Category_get_slug_Found in Hget as [Hc Hslug].
    intros Hctx.
    destruct (Hrest (Some c)
                (filter (λ r, Product.category r.2 = c.1) base) ctx)
      as [Hcur Hmem]; [|done|].
    { intros pk p. rewrite list_elem_of_filter, Hbase. cbn [snd]. split.
      - intros [Hcat [Hp Ha]]. split_and!; [done | done |].
        by intros c' [= <-].
      - intros (Hp & Ha & Hcat). split; [by apply Hcat | done]. }
    rewrite Hcur. split_and!.
    + intros c' [= <-]. by rewrite Hslug.
    + done.
    + intros pk p. rewrite Hmem. tauto.
  - intros Hctx. destruct (Hrest None base ctx) as [Hcur Hmem]; [|done|].
    { intros pk p. rewrite Hbase. split; [intros []; by split_and! | tauto]. }
    rewrite Hcur. split_and!; [done | by left |]. intros pk p.
    rewrite Hmem. tauto.
Qed.

Lemma product_list_lists_witness :
  let pA := Product.mk 1 "Red Mug" "red-mug" "ceramic" 1000 5 true in
  let pB := Product.mk 1 "Blue mug" "blue-mug" "Ceramic" 250 1 false in
  let pC := Product.mk 2 "Tee" "tee" "cotton MUG print" 700 1 true in
  let categories : gmap nat Category.t :=
    <[1 := Category.mk "Kitchen" "kitchen"]>
      (<[2 := Category.mk "Apparel" "apparel"]> ∅) in
  let w := {| db := mkDB (<[1 := pA]> (<[2 := pB]> (<[3 := pC]> ∅))) [] [];
              session_cart := Some [(1, 2%Z)] |} in
  let ctx :=
    {| ProductList.categories :=
         [(2, Category.mk "Apparel" "apparel");
          (1, Category.mk "Kitchen" "kitchen")];
       ProductList.products := [(3, pC)];
       ProductList.current_category := Some (2, Category.mk "Apparel" "apparel");
       ProductList.q := "mug";
       ProductList.sort := "";
       ProductList.cart_count := 2 |} in
  (∀ c, ProductList.current_category ctx = Some c →
        Some "apparel" = Some (Category.slug c.2) ∧
        categories !! c.1 = Some c.2) ∧
  (ProductList.current_category ctx = None →
   Some "apparel" = None ∨ Some "apparel" = Some "") ∧
  ∀ pk p,
    (pk, p) ∈ ProductList.products ctx ↔
    products (db w) !! pk = Some p ∧
    Product.is_active p = true ∧
    (∀ c, ProductList.current_category ctx = Some c →
          Product.category p = c.1) ∧
    (∀ text, Some "mug" = Some text → text ≠ "" →
       ∃ pre post,
         lower (Product.name p) = pre +:+ lower text +:+ post ∨
         lower (Product.description p) = pre +:+ lower text +:+ post).
Proof.
  intros pA pB pC categories w ctx.
  apply (product_list_lists categories (λ _, 0%Z) (Some "apparel")
           (Some "mug") None w ctx).
  vm_compute. reflexivity.
Defined.

Lemma product_list_sort_only (categories : gmap nat Category.t)
    (created_at : nat → Z) (slug q sort : option string) (w : World) :
  match product_list categories created_at slug q None w with
  | inl e => product_list categories created_at slug q sort w = inl e
  | inr ctx0 =>
      ∃ ctx,
        product_list categories created_at slug q sort w = inr ctx ∧
        ProductList.current_category ctx = ProductList.current_category ctx0 ∧
        ProductList.products ctx =
          if decide (sort = Some "price_asc")
          then merge_sort by_price (ProductList.products ctx0)
          else if decide (sort = Some "price_desc")
               then merge_sort by_price_desc (ProductList.products ctx0)
          else if decide (sort = Some "new")
               then merge_sort (by_newest created_at)
                      (ProductList.products ctx0)
          else ProductList.products ctx0
  end.
Proof.
  unfold product_list.
  destruct slug as [[|a slug]|];
    try destruct (Category_get_slug (String a slug) categories);
    try done; eexists; split_and!; try done.
Qed.

(** X27. The [sort] option only reorders the list: whatever its value, the same
    products are listed as without it.  With [price_asc] no product comes
    before a cheaper one, with [price_desc] none before a dearer one, with
    [new] none before a newer one; any other value leaves the order as it
    is without the option. *)
Theorem product_list_sorted (categories : gmap nat Category.t)
    (created_at : nat → Z) (slug q sort : option string) (w : World)
    (ctx0 : ProductList.t) :
  product_list categories created_at slug q None w = inr ctx0 →
  ∃ ctx,
    product_list categories created_at slug q sort w = inr ctx ∧
    ProductList.products ctx ≡ₚ ProductList.products ctx0 ∧
    (sort = Some "price_asc" →
     StronglySorted by_price (ProductList.products ctx)) ∧
    (sort = Some "price_desc" →
     StronglySorted by_price_desc (ProductList.products ctx)) ∧
    (sort = Some "new" →
     StronglySorted (by_newest created_at) (ProductList.products ctx)) ∧
    (sort ≠ Some "price_asc" → sort ≠ Some "price_desc" → sort ≠ Some "new" →
     ProductList.products ctx = ProductList.products ctx0).
Proof.
  intros H0.
  pose proof (product_list_sort_only categories created_at slug q sort w) as H.
  rewrite H0 in H. destruct H as (ctx & Hctx & _ & Hprod).
  exists ctx. rewrite Hprod. split_and!.
  - done.
  - repeat case_decide; by rewrite ?merge_sort_Permutation.
  - intros ->. rewrite decide_True by done.
    apply StronglySorted_merge_sort; apply _.
  - intros ->. rewrite decide_False by done. rewrite decide_True by done.
    apply StronglySorted_merge_sort; apply _.
  - intros ->. rewrite !decide_False by done. rewrite decide_True by done.
    apply StronglySorted_merge_sort; apply _.
  - intros H1 H2 H3. by rewrite !decide_False.
Qed.

Lemma product_list_sorted_witness :
  let pA := Product.mk 1 "Red Mug" "red-mug" "ceramic" 1000 5 true in
  let pC := Product.mk 2 "Tee" "tee" "cotton" 700 1 true in
  let w := {| db := mkDB (<[1 := pA]> (<[3 := pC]> ∅)) [] [];
              session_cart := None |} in
  let ctx0 :=
    {| ProductList.categories := [];
       ProductList.products := map_to_list (products (db w));
       ProductList.current_category := None;
       ProductList.q := "";
       ProductList.sort := "";
       ProductList.cart_count := 0 |} in
  ∃ ctx,
    product_list ∅ (λ _, 0%Z) None None (Some "price_asc") w = inr ctx ∧
    ProductList.products ctx ≡ₚ ProductList.products ctx0 ∧
    (Some "price_asc" = Some "price_asc" →
     StronglySorted by_price (ProductList.products ctx)) ∧
    (Some "price_asc" = Some "price_desc" →
     StronglySorted by_price_desc (ProductList.products ctx)) ∧
    (Some "price_asc" = Some "new" →
     StronglySorted (by_newest (λ _, 0%Z)) (ProductList.products ctx)) ∧
    (Some "price_asc" ≠ Some "price_asc" →
     Some "price_asc" ≠ Some "price_desc" → Some "price_asc" ≠ Some "new" →
     ProductList.products ctx = ProductList.products ctx0).
Proof.
  intros pA pC w ctx0.
  apply (product_list_sorted ∅ (λ _, 0%Z) None None (Some "price_asc") w ctx0).
  vm_compute. reflexivity.
Defined.

(** X28. A category URL whose slug no category has is answered with the 404 of
    [Category], whatever the search text and the sort option. *)
Theorem product_list_unknown_category (categories : gmap nat Category.t)
    (created_at : nat → Z) (slug : string) (q sort : option string)
    (w : World) :
  slug ≠ "" →
  (∀ pk c, categories !! pk = Some c → Category.slug c ≠ slug) →
  product_list categories created_at (Some slug) q sort w =
    inl (Http404 "Category").
Proof.
  intros Hne Hnone. unfold product_list.
  destruct slug as [|a slug]; [done|].
  unfold Category_get_slug.
  destruct (filter _ (map_to_list categories)) as [|[pk c] l] eqn:Hf; [done|].
  assert ((pk, c) ∈ filter (λ c, Category.slug c.2 = String a slug)
                      (map_to_list categories)) as Hin by (rewrite Hf; left).
  apply list_elem_of_filter in Hin as [Hslug Hin].
  apply elem_of_map_to_list in Hin. by destruct (Hnone pk c Hin).
Qed.

Lemma product_list_unknown_category_witness :
  let categories : gmap nat Category.t :=
    {[1 := Category.mk "Kitchen" "kitchen"]} in
  let w := {| db := mkDB ∅ [] []; session_cart := None |} in
  product_list categories (λ _, 0%Z) (Some "garden") (Some "mug")
    (Some "price_asc") w = inl (Http404 "Category").
Proof.
  intros categories w.
  apply (product_list_unknown_category categories (λ _, 0%Z) "garden");
    [discriminate|].
  intros pk c Hc. apply lookup_singleton_Some in Hc as [_ <-]. discriminate.
Defined.

Lemma list_single {A : Type} (l : list A) (x : A) :
  NoDup l → x ∈ l → (∀ y, y ∈ l → y = x) → l = [x].
Proof.
  intros Hnd Hin Hall. destruct l as [|a [|b l]].
  - by apply elem_of_nil in Hin.
  - by rewrite (Hall a) by left.
  - assert (a = x) as -> by (apply Hall; left).
    assert (b = x) as -> by (apply Hall; right; left).
    apply NoDup_cons in Hnd as [Hnin _]. destruct Hnin. left.
Qed.

(** X29. [product_detail] shows a product only if it is a row of the store with
    the slug of the URL and active; when no active product has the slug, an
    inactive one included, it raises the 404 of [Product]; and with slugs
    unique, as the schema has them, an active product is shown under its
    slug. *)
Theorem product_detail_active_only (slug : string) (w : World) :
  (∀ p n, product_detail slug w = inr (p, n) →
     ∃ pk, products (db w) !! pk = Some p ∧ Product.slug p = slug ∧
           Product.is_active p = true ∧
           n = dict_sum_values (_get_cart w)) ∧
  ((∀ pk p, products (db w) !! pk = Some p → Product.slug p = slug →
            Product.is_active p = false) →
   product_detail slug w = inl (Http404 "Product")) ∧
  (slugs_unique (products (db w)) →
   ∀ pk p, products (db w) !! pk = Some p → Product.slug p = slug →
           Product.is_active p = true →
           product_detail slug w = inr (p, dict_sum_values (_get_cart w))).
Proof.
  unfold product_detail.
  set (found := filter (λ r, Product.slug r.2 = slug ∧
                             Product.is_active r.2 = true)
                  (map_to_list (products (db w)))).
  assert (∀ pk p, (pk, p) ∈ found ↔
            products (db w) !! pk = Some p ∧ Product.slug p = slug ∧
            Product.is_active p = true) as Hfound.
  { intros pk p. unfold found.
    rewrite list_elem_of_filter, elem_of_map_to_list. simpl. tauto. }
  split_and!.
  - intros p n. destruct found as [|[pk p'] [|]] eqn:Hf; try done.
    intros [= <- <-]. exists pk.
    destruct (Hfound pk p') as [Hin _].
    destruct Hin as (Hp & Hs & Ha); [left|]. done.
  - intros Hnone. destruct found as [|[pk p] l] eqn:Hf; [done|].
    destruct (Hfound pk p) as [Hin _].
    destruct Hin as (Hp & Hs & Ha); [left|].
    rewrite (Hnone pk p Hp Hs) in Ha. done.
  - intros Huniq pk p Hp Hs Ha.
    assert (found = [(pk, p)]) as ->; [|done].
    apply list_single.
    + unfold found. apply NoDup_filter, NoDup_map_to_list.
    + apply Hfound. done.
    + intros [pk' p'] (Hp' & Hs' & Ha')%Hfound.
      assert (pk' = pk) as -> by (eapply Huniq; [done | done | congruence]).
      congruence.
Qed.

Lemma product_detail_active_only_witness :
  let pA := Product.mk 1 "Red Mug" "red-mug" "ceramic" 1000 5 true in
  let pB := Product.mk 1 "Blue mug" "blue-mug" "Ceramic" 250 1 false in
  let w := {| db := mkDB (<[1 := pA]> (<[2 := pB]> ∅)) [] [];
              session_cart := Some [(1, 2%Z)] |} in
  product_detail "blue-mug" w = inl (Http404 "Product").
Proof.
  intros pA pB w. apply (product_detail_active_only "blue-mug" w).
  intros pk p Hp Hs. simpl in Hp.
  apply lookup_insert_Some in Hp as [[_ <-]|[_ Hp]]; [discriminate|].
  apply lookup_insert_Some in Hp as [[_ <-]|[_ Hp]]; [done|].
  by rewrite lookup_empty in Hp.
Defined.
